(** * fsevent_watch: a shallow embedding of [fsevent_watch/main.c]

    The program resolves the paths given on its command line, gates the
    optional stream flags on the version of the operating system, creates one
    FSEvents stream, runs it on the run loop of the process and prints every
    delivered batch of events on standard output.

    The embedding follows the non-DEBUG build: every [#ifdef DEBUG] block
    of the source is left out.  What the source obtains from the operating
    system and from CoreFoundation (Gestalt, realpath, getcwd, the decoding
    of UTF-8, the FSEvents stream) is read from a [host] record.  The constants of the FSEvents API have the values of
    its header; [PATH_MAX], the two enumerators of [cli.h] and the parser
    of [cli.h] are parameters of the development. *)

From Stdlib Require Import List String Ascii ZArith NArith QArith_base.
From Stdlib Require Import Bool Lia DecimalString DecimalN.
Import ListNotations.

Close Scope Q_scope.
Open Scope list_scope.
Open Scope string_scope.

(** ** C strings and character arrays *)

Module CString.

Definition NUL : ascii := "000"%char.

(** The line feed written ["\n"] in the source. *)
Definition LF : string := String "010"%char EmptyString.

(** A Rocq [string] stands for the contents of a C string, which cannot hold
    a NUL byte. *)
Fixpoint is_c_string (s : string) : bool :=
  match s with
  | EmptyString => true
  | String c s' => negb (Ascii.eqb c NUL) && is_c_string s'
  end.

(** [s[0]] of a C string: the terminator when the string is empty. *)
Definition first_char (s : string) : ascii :=
  match s with
  | EmptyString => NUL
  | String c _ => c
  end.

(** The first [n] bytes of a string. *)
Fixpoint truncate (n : nat) (s : string) : string :=
  match n, s with
  | S n', String c s' => String c (truncate n' s')
  | _, _ => EmptyString
  end.

(** Reading a [char] array as a C string: the bytes before the first NUL.
    An array that holds no NUL makes the read run past its end, which C
    leaves undefined: [None]. *)
Fixpoint c_str (b : list ascii) : option string :=
  match b with
  | [] => None
  | c :: b' =>
      if Ascii.eqb c NUL then Some EmptyString
      else option_map (String c) (c_str b')
  end.

Definition strlen (b : list ascii) : option nat :=
  option_map String.length (c_str b).

(** Writing the bytes [bs] into the array [b] from index [off] on. *)
Definition store (b : list ascii) (off : nat) (bs : list ascii) : list ascii :=
  firstn off b ++ bs ++ skipn (off + List.length bs) b.

(** [strlcpy(&b[off], src, size)]: at most [size - 1] bytes of [src] and a
    terminator; nothing at all when [size] is 0. *)
Definition strlcpy (b : list ascii) (off : nat) (src : string) (size : nat)
  : list ascii :=
  match size with
  | O => b
  | S n => store b off (list_ascii_of_string (truncate n src) ++ [NUL])
  end.

End CString.

Import CString.

(** ** Values of the system headers *)

(** [FSEventStreamCreateFlags] of <CoreServices/FSEvents.h>. *)
Definition kFSEventStreamCreateFlagNone : N := 0x00.
Definition kFSEventStreamCreateFlagNoDefer : N := 0x02.
Definition kFSEventStreamCreateFlagWatchRoot : N := 0x04.
Definition kFSEventStreamCreateFlagIgnoreSelf : N := 0x08.
Definition kFSEventStreamCreateFlagFileEvents : N := 0x10.

(** [kFSEventStreamEventIdSinceNow], the all-ones 64-bit event id. *)
Definition kFSEventStreamEventIdSinceNow : N := 0xFFFFFFFFFFFFFFFF.

(** [EXIT_FAILURE] of <stdlib.h>. *)
Definition EXIT_FAILURE : Z := 1.

(** The two selectors [main.c] passes to [Gestalt]. *)
Inductive OSType : Type :=
| gestaltSystemVersionMajor
| gestaltSystemVersionMinor.

(** ** Data of the program *)

(** [struct cli_info], filled by the command-line parser of [cli.h].  The
    flags are C [int]s, tested against 0; [inputs] holds the
    [inputs_num] unnamed arguments.  [since_when_arg] is the value as the
    assignment to the [UInt64] [config.sinceWhen] stores it; a latency is a
    C [double], which the program only passes on: a rational stands for
    it. *)
Record cli_info : Type := mk_cli_info {
  since_when_arg : N;
  latency_arg : Q;
  format_arg : Z;
  no_defer_flag : Z;
  watch_root_flag : Z;
  ignore_self_flag : Z;
  file_events_flag : Z;
  inputs : list string
}.

Definition inputs_num (a : cli_info) : nat := List.length (inputs a).

(** The static [config] structure.  [paths] is a [CFMutableArrayRef]: [None]
    is the NULL it is initialised with. *)
Record config_t : Type := mk_config {
  sinceWhen : N;
  latency : Q;
  flags : N;
  paths : option (list string);
  format : Z
}.

Definition set_paths (v : option (list string)) (c : config_t) : config_t :=
  mk_config (sinceWhen c) (latency c) (flags c) v (format c).

Definition set_flags (v : N) (c : config_t) : config_t :=
  mk_config (sinceWhen c) (latency c) v (paths c) (format c).

(** One record of a batch the stream delivers: a path, its
    [FSEventStreamEventFlags] (a [UInt32]) and its [FSEventStreamEventId] (a
    [UInt64]). *)
Record event : Type := mk_event {
  ev_path : string;
  ev_flags : N;
  ev_id : N
}.

(** The calls made to the FSEvents stream and to the run loop, with the
    arguments [main] takes from [config]. *)
Inductive native_call : Type :=
| FSEventStreamCreate
    (pathsToWatch : option (list string)) (since : N) (lat : Q) (fl : N)
| FSEventStreamScheduleWithRunLoop
| FSEventStreamStart
| CFRunLoopRun
| FSEventStreamFlushSync
| FSEventStreamStop.

(** A buffered stdio stream: what [fprintf] has queued and what has reached
    the reader. *)
Record FILE : Type := mk_FILE {
  buffered : string;
  written : string
}.

(** The state of the process: the static [config], the two output streams
    ([stderr] is unbuffered) and the native calls made so far, oldest
    first. *)
Record process : Type := mk_process {
  config : config_t;
  stdout : FILE;
  stderr : string;
  calls : list native_call
}.

(** What the operating system answers. *)
Record host : Type := mk_host {
  (** the value of [setpgid(0,0)] *)
  setpgid : Z;
  (** [Gestalt(selector, &response)]: [Some response] when it returns
      [noErr] *)
  Gestalt : OSType -> option Z;
  (** [realpath(path, buf)]: the canonical path, [None] for NULL *)
  realpath : string -> option string;
  (** the working directory, [None] when [getcwd] cannot obtain it *)
  cwd : option string;
  (** the bytes found in the uninitialised [fullPath] array, by index *)
  indeterminate : nat -> ascii;
  (** whether CoreFoundation decodes the bytes of a C string as
      [kCFStringEncodingUTF8]; [CFStringCreateWithCString] returns NULL when
      it does not *)
  decodes : string -> bool;
  (** whether [FSEventStreamCreate] returns a stream rather than NULL *)
  stream_created : bool;
  (** the batches delivered while [CFRunLoopRun] runs *)
  delivered : list (list event);
  (** whether [CFRunLoopRun] ever returns *)
  run_loop_returns : bool;
  (** the batches still pending, delivered by [FSEventStreamFlushSync] *)
  pending : list (list event)
}.

(** ** The monad of the process

    A computation either returns, leaves the process through [exit] (or the
    return of [main]), stays inside a run loop that never returns, or has no
    behaviour defined by C and the API contracts. *)

Inductive outcome (A : Type) : Type :=
| Returns (a : A) (p : process)
| Exits (status : Z) (p : process)
| Blocked (p : process)
| Undefined.

Arguments Returns {A} a p.
Arguments Exits {A} status p.
Arguments Blocked {A} p.
Arguments Undefined {A}.

Definition M (A : Type) : Type := process -> outcome A.

Definition ret {A : Type} (a : A) : M A := fun p => Returns a p.

Definition bind {A B : Type} (m : M A) (k : A -> M B) : M B :=
  fun p =>
    match m p with
    | Returns a p' => k a p'
    | Exits status p' => Exits status p'
    | Blocked p' => Blocked p'
    | Undefined => Undefined
    end.

Declare Scope proc_scope.
Delimit Scope proc_scope with proc.
Notation "x <- m ;; k" := (bind m (fun x => k))
  (at level 61, m at next level, right associativity) : proc_scope.
Notation "m ;; k" := (bind m (fun _ => k))
  (at level 61, right associativity) : proc_scope.
Open Scope proc_scope.

Definition undefined {A : Type} : M A := fun _ => Undefined.

(** A value that exists only where C defines it. *)
Definition defined {A : Type} (o : option A) : M A :=
  match o with
  | Some a => ret a
  | None => undefined
  end.

Definition modify (f : process -> process) : M unit :=
  fun p => Returns tt (f p).

Definition get_config : M config_t := fun p => Returns (config p) p.

Definition set_config (f : config_t -> config_t) : process -> process :=
  fun p => mk_process (f (config p)) (stdout p) (stderr p) (calls p).

Definition fputs (s : string) (f : FILE) : FILE :=
  mk_FILE (buffered f ++ s) (written f).

Definition flush (f : FILE) : FILE :=
  mk_FILE EmptyString (written f ++ buffered f).

(** The process after [s] is queued on [stdout], after [stdout] is
    flushed, after [s] is written to [stderr] and after the native call
    [c]. *)
Definition emit (s : string) (p : process) : process :=
  mk_process (config p) (fputs s (stdout p)) (stderr p) (calls p).

Definition flushed (p : process) : process :=
  mk_process (config p) (flush (stdout p)) (stderr p) (calls p).

Definition complain (s : string) (p : process) : process :=
  mk_process (config p) (stdout p) (stderr p ++ s) (calls p).

Definition called (c : native_call) (p : process) : process :=
  mk_process (config p) (stdout p) (stderr p) (calls p ++ [c]).

(** [fprintf(stdout, ...)] with the formatted text [s]. *)
Definition fprintf_stdout (s : string) : M unit := modify (emit s).

(** [fprintf(stderr, ...)] with the formatted text [s]. *)
Definition fprintf_stderr (s : string) : M unit := modify (complain s).

(** [fflush(stdout)]. *)
Definition fflush_stdout : M unit := modify flushed.

(** [exit(status)], also the return of [main]: the stdio buffers are
    flushed and the process ends. *)
Definition exit {A : Type} (status : Z) : M A :=
  fun p => Exits status (flushed p).

Definition native (c : native_call) : M unit := modify (called c).

(** The truth value of a C [int]. *)
Definition c_true (x : Z) : bool := negb (x =? 0)%Z.

(** [%lu] and [%llu]: an unsigned integer in decimal.  The casts of the
    source widen a [UInt32] and a [UInt64] and keep the value. *)
Definition decimal (n : N) : string := NilEmpty.string_of_uint (N.to_uint n).

(** ** The program *)

Section Program.

(** [PATH_MAX] of <limits.h>. *)
Variable PATH_MAX : nat.

(** The two enumerators of [enum FSEventWatchOutputFormat], declared in
    [cli.h]. *)
Variable kFSEventWatchOutputFormatClassic : Z.
Variable kFSEventWatchOutputFormatNIW : Z.

(** [cli_parser] of [cli.h]: the parsed arguments when it returns 0. *)
Variable cli_parser : list string -> option cli_info.

Variable os : host.

(** The initialiser of the static [config]. *)
Definition config_initializer : config_t :=
  mk_config kFSEventStreamEventIdSinceNow (3 # 10)
            kFSEventStreamCreateFlagNone None
            kFSEventWatchOutputFormatClassic.

Definition process_start : process :=
  mk_process config_initializer (mk_FILE EmptyString EmptyString) EmptyString [].

(** [char fullPath[PATH_MAX];] *)
Definition uninitialised : list ascii :=
  map (indeterminate os) (seq 0 PATH_MAX).

(** [realpath(path, buf)]: the canonical path always fits [PATH_MAX] bytes
    with its terminator; a longer one is the error ENAMETOOLONG.  On NULL the
    array is left with contents the source never reads. *)
Definition realpath_into (path : string) (buf : list ascii)
  : option (list ascii) :=
  match realpath os path with
  | Some r =>
      if (String.length r <? PATH_MAX)%nat
      then Some (store buf 0 (list_ascii_of_string r ++ [NUL]))
      else None
  | None => None
  end.

(** [getcwd(buf, size)]: NULL when the directory and its terminator do not
    fit [size] bytes, or cannot be obtained. *)
Definition getcwd (buf : list ascii) (size : nat) : option (list ascii) :=
  match cwd os with
  | Some d =>
      if (String.length d <? size)%nat
      then Some (store buf 0 (list_ascii_of_string d ++ [NUL]))
      else None
  | None => None
  end.

(** The first half of [append_path]: the contents of [fullPath] when the
    [if (realpath(...) == NULL)] statement is over.  The value of [getcwd]
    is not tested by the source; after a failed [getcwd] the array is
    indeterminate and [strlen] of it has no defined value. *)
Definition resolve (path : string) : option (list ascii) :=
  let fullPath := uninitialised in
  match realpath_into path fullPath with
  | Some fullPath => Some fullPath
  | None =>
      if negb (Ascii.eqb (first_char path) "/"%char) then
        match getcwd fullPath PATH_MAX with
        | None => None
        | Some fullPath =>
            match strlen fullPath with
            | None => None
            | Some len =>
                let fullPath := store fullPath len ["/"%char] in
                Some (strlcpy fullPath (len + 1) path (PATH_MAX - (len + 1)))
            end
        end
      else Some (strlcpy fullPath 0 path PATH_MAX)
  end.

(** [CFStringCreateWithCString(NULL, cStr, kCFStringEncodingUTF8)] reads
    [cStr] up to its terminator, which is undefined for an array without
    terminator (outer [None]), and returns the string, or NULL (inner
    [None]) when the bytes read do not decode as UTF-8. *)
Definition CFStringCreateWithCString (cStr : list ascii)
  : option (option string) :=
  match c_str cStr with
  | Some s => Some (if decodes os s then Some s else None)
  | None => None
  end.

(** [CFArrayAppendValue(config.paths, value)]: the array must exist, and
    the value, which the array retains, must not be NULL.  The source tests
    neither before the call. *)
Definition CFArrayAppendValue (value : option string) : M unit :=
  fun p =>
    match value, paths (config p) with
    | Some v, Some a =>
        Returns tt (set_config (set_paths (Some (a ++ [v])%list)) p)
    | _, _ => Undefined
    end.

(** The C string [fullPath] holds when the first half of [append_path] is
    over. *)
Definition resolved_bytes (path : string) : option string :=
  match resolve path with
  | Some fullPath => c_str fullPath
  | None => None
  end.

(** The path [append_path path] hands to [CFArrayAppendValue]. *)
Definition resolved (path : string) : option string :=
  match resolve path with
  | Some fullPath =>
      match CFStringCreateWithCString fullPath with
      | Some (Some s) => Some s
      | _ => None
      end
  | None => None
  end.

Definition append_path (path : string) : M unit :=
  fullPath <- defined (resolve path) ;;
  pathRef <- defined (CFStringCreateWithCString fullPath) ;;
  CFArrayAppendValue pathRef.

(** [for (unsigned int i = 0; i < n; ++i) body(a[i]);] over the [n]
    elements of [a]. *)
Fixpoint for_each {A : Type} (body : A -> M unit) (a : list A) : M unit :=
  match a with
  | [] => ret tt
  | x :: a' => body x ;; for_each body a'
  end.

(** [config.flags |= flag;] *)
Definition or_flags (flag : N) : M unit :=
  modify (set_config (fun c => set_flags (N.lor (flags c) flag) c)).

(** [if (!(Gestalt(selector, &v) == noErr)) v = 0;] *)
Definition detect (selector : OSType) : Z :=
  match Gestalt os selector with
  | Some v => v
  | None => 0%Z
  end.

Definition parse_cli_settings (argv : list string) : M unit :=
  let osMajorVersion := detect gestaltSystemVersionMajor in
  let osMinorVersion := detect gestaltSystemVersionMinor in
  if c_true (Z.land (Z.b2z (osMajorVersion =? 10)%Z)
                    (Z.b2z (osMinorVersion <? 5)%Z))
  then
    fprintf_stderr
      ("The FSEvents API is unavailable on this version of macos!" ++ LF) ;;
    exit EXIT_FAILURE
  else
    match cli_parser argv with
    | None => exit EXIT_FAILURE
    | Some args_info =>
        modify (set_config (set_paths (Some []))) ;;
        modify (set_config
                  (fun c => mk_config (since_when_arg args_info)
                                      (latency_arg args_info) (flags c)
                                      (paths c) (format_arg args_info))) ;;
        (if c_true (no_defer_flag args_info)
         then or_flags kFSEventStreamCreateFlagNoDefer
         else ret tt) ;;
        (if c_true (watch_root_flag args_info)
         then or_flags kFSEventStreamCreateFlagWatchRoot
         else ret tt) ;;
        (if c_true (ignore_self_flag args_info) then
           if c_true (Z.land (Z.b2z (osMajorVersion =? 10)%Z)
                             (Z.b2z (osMinorVersion >=? 6)%Z))
           then or_flags kFSEventStreamCreateFlagIgnoreSelf
           else
             fprintf_stderr
               ("MacOSX 10.6 or later is required for --ignore-self" ++ LF) ;;
             exit EXIT_FAILURE
         else ret tt) ;;
        (if c_true (file_events_flag args_info) then
           if c_true (Z.land (Z.b2z (osMajorVersion =? 10)%Z)
                             (Z.b2z (osMinorVersion >=? 7)%Z))
           then or_flags kFSEventStreamCreateFlagFileEvents
           else
             fprintf_stderr
               ("MacOSX 10.7 or later required for --file-events" ++ LF) ;;
             exit EXIT_FAILURE
         else ret tt) ;;
        (if (inputs_num args_info =? 0)%nat
         then append_path "."
         else for_each append_path (inputs args_info))
    end.

(** [for (size_t i = 0; i < numEvents; i++) fprintf(stdout, "%s:", paths[i]);]
    with [n] iterations left from index [i]; an index outside the array is
    an undefined read. *)
Fixpoint classic_output_format_loop (n i : nat) (paths : list string)
  : M unit :=
  match n with
  | O => ret tt
  | S n' =>
      path <- defined (nth_error paths i) ;;
      fprintf_stdout (path ++ ":") ;;
      classic_output_format_loop n' (S i) paths
  end.

Definition classic_output_format (numEvents : nat) (paths : list string)
  : M unit :=
  classic_output_format_loop numEvents 0 paths ;;
  fprintf_stdout LF.

Fixpoint niw_output_format_loop (n i : nat) (paths : list string)
  (eventFlags eventIds : list N) : M unit :=
  match n with
  | O => ret tt
  | S n' =>
      fl <- defined (nth_error eventFlags i) ;;
      id <- defined (nth_error eventIds i) ;;
      path <- defined (nth_error paths i) ;;
      fprintf_stdout (decimal fl ++ ":" ++ decimal id ++ ":" ++ path ++ LF) ;;
      niw_output_format_loop n' (S i) paths eventFlags eventIds
  end.

Definition niw_output_format (numEvents : nat) (paths : list string)
  (eventFlags eventIds : list N) : M unit :=
  niw_output_format_loop numEvents 0 paths eventFlags eventIds ;;
  fprintf_stdout LF.

Definition callback (numEvents : nat) (eventPaths : list string)
  (eventFlags eventIds : list N) : M unit :=
  let paths := eventPaths in
  c <- get_config ;;
  (if (format c =? kFSEventWatchOutputFormatClassic)%Z then
     classic_output_format numEvents paths
   else if (format c =? kFSEventWatchOutputFormatNIW)%Z then
     niw_output_format numEvents paths eventFlags eventIds
   else ret tt) ;;
  fflush_stdout.

(** The stream hands one batch to the registered callback: the number of
    its records and three arrays of that size. *)
Definition deliver (batch : list event) : M unit :=
  callback (List.length batch) (map ev_path batch)
           (map ev_flags batch) (map ev_id batch).

(** A call on the stream made by [main]; the stream must not be NULL. *)
Definition on_stream (stream : bool) (c : native_call) : M unit :=
  if stream then native c else undefined.

Definition main (argv : list string) : M Z :=
  if (setpgid os <? 0)%Z then
    fprintf_stderr ("Unable to set new process group." ++ LF) ;;
    exit 1%Z
  else
    parse_cli_settings argv ;;
    c <- get_config ;;
    native (FSEventStreamCreate (paths c) (sinceWhen c) (latency c) (flags c)) ;;
    let stream := stream_created os in
    on_stream stream FSEventStreamScheduleWithRunLoop ;;
    on_stream stream FSEventStreamStart ;;
    native CFRunLoopRun ;;
    for_each deliver (delivered os) ;;
    (if run_loop_returns os then ret tt else fun p => Blocked p) ;;
    on_stream stream FSEventStreamFlushSync ;;
    for_each deliver (pending os) ;;
    on_stream stream FSEventStreamStop ;;
    exit 0%Z.

End Program.

(** ** Vocabulary of the statements *)

Fixpoint join (l : list string) : string :=
  match l with
  | [] => EmptyString
  | s :: l' => s ++ join l'
  end.

(** The text of a batch in the classic format: every path followed by a
    colon, then a line feed. *)
Definition classic_text (batch : list event) : string :=
  join (map (fun e => ev_path e ++ ":") batch) ++ LF.

(** The text of a batch in the annotated format: a line
    [flags:id:path] per record, then an empty line. *)
Definition annotated_text (batch : list event) : string :=
  join (map (fun e => decimal (ev_flags e) ++ ":" ++ decimal (ev_id e)
                      ++ ":" ++ ev_path e ++ LF) batch) ++ LF.

(** The native calls of one watch session on the configuration [c], in
    their order. *)
Definition session (c : config_t) : list native_call :=
  [ FSEventStreamCreate (paths c) (sinceWhen c) (latency c) (flags c);
    FSEventStreamScheduleWithRunLoop;
    FSEventStreamStart;
    CFRunLoopRun;
    FSEventStreamFlushSync;
    FSEventStreamStop ].

(** The paths the program watches for the parsed arguments [a]. *)
Definition watched_inputs (a : cli_info) : list string :=
  match inputs a with
  | [] => ["."]
  | l => l
  end.

(** What precedes the input in the resolved form of a path [realpath]
    rejects: nothing when the path is absolute, the working directory and a
    slash when it is relative. *)
Definition base_of (os : host) (path : string) : option string :=
  if Ascii.eqb (first_char path) "/"%char then Some EmptyString
  else option_map (fun d => d ++ "/") (cwd os).

(** Version [major.minor] is version [M.m] or a later one. *)
Definition version_at_least (major minor M m : Z) : bool :=
  ((M <? major) || ((major =? M) && (m <=? minor)))%Z.

(** The three diagnostics of the version checks. *)
Definition unavailable_diagnostic : string :=
  "The FSEvents API is unavailable on this version of macos!" ++ LF.

Definition ignore_self_diagnostic : string :=
  "MacOSX 10.6 or later is required for --ignore-self" ++ LF.

Definition file_events_diagnostic : string :=
  "MacOSX 10.7 or later required for --file-events" ++ LF.

(** The two tests [parse_cli_settings] makes on the detected version, as
    booleans: the one that refuses to start and the one that lets a flag
    through, [k] being 6 or 7. *)
Definition unavailable (major minor : Z) : bool :=
  ((major =? 10) && (minor <? 5))%Z.

Definition gate (major minor k : Z) : bool :=
  ((major =? 10) && (k <=? minor))%Z.

(** The flags of the stream when the four options are as given. *)
Definition or_if (b : bool) (flag f : N) : N :=
  if b then N.lor f flag else f.

Definition flags_with (f : N) (no_defer watch_root ignore_self file_events : bool)
  : N :=
  or_if file_events kFSEventStreamCreateFlagFileEvents
    (or_if ignore_self kFSEventStreamCreateFlagIgnoreSelf
       (or_if watch_root kFSEventStreamCreateFlagWatchRoot
          (or_if no_defer kFSEventStreamCreateFlagNoDefer f))).

(** The configuration taken from the parsed arguments [a], with the flags
    [fl] and no path yet. *)
Definition configure (a : cli_info) (fl : N) (c : config_t) : config_t :=
  mk_config (since_when_arg a) (latency_arg a) fl (Some []) (format_arg a).

(** ** Vocabulary of the further properties *)

(** Whether the byte [c] occurs in [s]. *)
Fixpoint occurs (c : ascii) (s : string) : bool :=
  match s with
  | EmptyString => false
  | String c' s' => Ascii.eqb c' c || occurs c s'
  end.

(** Everything printed on [stdout] so far, flushed or still queued. *)
Definition output (p : process) : string :=
  written (stdout p) ++ buffered (stdout p).

(** The text the callback prints for a batch when [config.format] is [f]:
    nothing when [f] is neither enumerator. *)
Definition batch_text (classic niw f : Z) (batch : list event) : string :=
  if (f =? classic)%Z then classic_text batch
  else if (f =? niw)%Z then annotated_text batch
  else EmptyString.

(** The lines of the annotated format for three arrays read side by side. *)
Definition annotated_records (paths : list string) (fl ids : list N)
  : list string :=
  map (fun r => decimal (fst (snd r)) ++ ":" ++ decimal (snd (snd r))
                ++ ":" ++ fst r ++ LF)
      (combine paths (combine fl ids)).

(** The stream flags the parsed arguments [a] ask for. *)
Definition requested_flags (a : cli_info) : N :=
  ((if c_true (no_defer_flag a) then kFSEventStreamCreateFlagNoDefer else 0)
   + (if c_true (watch_root_flag a) then kFSEventStreamCreateFlagWatchRoot
      else 0)
   + (if c_true (ignore_self_flag a) then kFSEventStreamCreateFlagIgnoreSelf
      else 0)
   + (if c_true (file_events_flag a) then kFSEventStreamCreateFlagFileEvents
      else 0))%N.

(** The diagnostic of a failed [setpgid]. *)
Definition setpgid_diagnostic : string :=
  "Unable to set new process group." ++ LF.

(** What [parse_cli_settings] writes to [stderr]: the diagnostic of the
    first check that fails, in the order of the source. *)
Definition parse_diagnostic (cli_parser : list string -> option cli_info)
  (os : host) (argv : list string) : string :=
  let major := detect os gestaltSystemVersionMajor in
  let minor := detect os gestaltSystemVersionMinor in
  if unavailable major minor then unavailable_diagnostic
  else
    match cli_parser argv with
    | None => EmptyString
    | Some a =>
        if c_true (ignore_self_flag a) && negb (gate major minor 6)
        then ignore_self_diagnostic
        else if c_true (file_events_flag a) && negb (gate major minor 7)
        then file_events_diagnostic
        else EmptyString
    end.

(** What [main] writes to [stderr]. *)
Definition main_diagnostic (cli_parser : list string -> option cli_info)
  (os : host) (argv : list string) : string :=
  if (setpgid os <? 0)%Z then setpgid_diagnostic
  else parse_diagnostic cli_parser os argv.

(** The parsed arguments [a] with the unnamed arguments [l]. *)
Definition with_inputs (l : list string) (a : cli_info) : cli_info :=
  mk_cli_info (since_when_arg a) (latency_arg a) (format_arg a)
              (no_defer_flag a) (watch_root_flag a) (ignore_self_flag a)
              (file_events_flag a) l.

(** The host [os] with a [realpath] that rejects every path. *)
Definition nothing_exists (os : host) : host :=
  mk_host (setpgid os) (Gestalt os) (fun _ => None) (cwd os)
          (indeterminate os) (decodes os) (stream_created os) (delivered os)
          (run_loop_returns os) (pending os).

(** ** Hosts and inputs of the examples *)

Module Examples.

(** [PATH_MAX] of Darwin. *)
Definition darwin_PATH_MAX : nat := 1024.

(** The values a C compiler gives the two enumerators when they are
    declared in this order without initialisers. *)
Definition classic_value : Z := 0.
Definition niw_value : Z := 1.

Fixpoint replicate (n : nat) (c : ascii) : string :=
  match n with
  | O => EmptyString
  | S n' => String c (replicate n' c)
  end.

(** The value of a byte. *)
Definition byte (c : ascii) : N := N_of_ascii c.

Definition between (lo hi : N) (c : ascii) : bool :=
  ((lo <=? byte c) && (byte c <=? hi))%N.

(** The well-formed UTF-8 byte sequences of the Unicode Standard: one
    byte [00..7F]; two bytes [C2..DF] [80..BF]; three bytes [E0..EF] and
    four bytes [F0..F4] with continuation bytes [80..BF], the first of
    which is further restricted after [E0], [ED], [F0] and [F4]. *)
Fixpoint well_formed_utf8 (s : string) : bool :=
  match s with
  | EmptyString => true
  | String c0 s1 =>
      if between 0x00 0x7F c0 then well_formed_utf8 s1
      else if between 0xC2 0xDF c0 then
        match s1 with
        | String c1 s2 => between 0x80 0xBF c1 && well_formed_utf8 s2
        | _ => false
        end
      else if between 0xE0 0xEF c0 then
        match s1 with
        | String c1 (String c2 s3) =>
            (if between 0xE0 0xE0 c0 then between 0xA0 0xBF c1
             else if between 0xED 0xED c0 then between 0x80 0x9F c1
             else between 0x80 0xBF c1)
            && between 0x80 0xBF c2 && well_formed_utf8 s3
        | _ => false
        end
      else if between 0xF0 0xF4 c0 then
        match s1 with
        | String c1 (String c2 (String c3 s4)) =>
            (if between 0xF0 0xF0 c0 then between 0x90 0xBF c1
             else if between 0xF4 0xF4 c0 then between 0x80 0x8F c1
             else between 0x80 0xBF c1)
            && between 0x80 0xBF c2 && between 0x80 0xBF c3
            && well_formed_utf8 s4
        | _ => false
        end
      else false
  end.

(** The two bytes of U+00E9, and a path that ends with them. *)
Definition e_acute : string := String "195"%char (String "169"%char EmptyString).
Definition cafe : string := "/caf" ++ e_acute.

Definition long_relative : string := replicate 1100 "a"%char.
Definition long_absolute : string := String "/"%char long_relative.

Definition version (major minor : option Z) (selector : OSType) : option Z :=
  match selector with
  | gestaltSystemVersionMajor => major
  | gestaltSystemVersionMinor => minor
  end.

(** A host on which only the working directory exists, whose CoreFoundation
    decodes the well-formed UTF-8 sequences, and which delivers [batches]
    and then leaves its run loop. *)
Definition machine (major minor : option Z) (batches : list (list event))
  : host :=
  mk_host 0 (version major minor)
          (fun path => if String.eqb path "." then Some "/home/me" else None)
          (Some "/home/me") (fun _ => "?"%char) well_formed_utf8
          true batches true [].

Definition batch_ab : list event :=
  [ mk_event "/tmp/a" 0 1; mk_event "/tmp/b" 0 2 ].

(** The parsed command line [--format=f] followed by [inputs], with the
    flags [--ignore-self] and [--file-events] as given. *)
Definition arguments (f ignore_self file_events : Z) (inputs : list string)
  : cli_info :=
  mk_cli_info kFSEventStreamEventIdSinceNow (3 # 10) f 0 0
              ignore_self file_events inputs.

(** Mac OS X 10.7, delivering one batch. *)
Definition lion : host := machine (Some 10%Z) (Some 7%Z) [batch_ab].

(** macOS 11.0. *)
Definition big_sur : host := machine (Some 11%Z) (Some 0%Z) [batch_ab].

(** Mac OS X 10.4. *)
Definition tiger : host := machine (Some 10%Z) (Some 4%Z) [batch_ab].

(** A host on which [Gestalt] fails for both selectors. *)
Definition undetected : host := machine None None [batch_ab].

(** The process once [config.paths] is an empty array. *)
Definition ready : process :=
  set_config (set_paths (Some [])) (process_start classic_value).

(** A process whose [config.format] is [f], nothing printed yet. *)
Definition formatting (f : Z) : process :=
  set_config (configure (arguments f 0 0 []) kFSEventStreamCreateFlagNone)
             (process_start classic_value).

(** The command-line parser that answers [a] whatever the arguments. *)
Definition parsed (a : cli_info) (argv : list string) : option cli_info :=
  Some a.

End Examples.
(** ** Strings and arrays *)

Lemma length_list_ascii_of_string (s : string) :
  List.length (list_ascii_of_string s) = String.length s.
Proof. induction s as [|c s IH]; simpl; congruence. Qed.

Lemma truncate_all (n : nat) (s : string) :
  String.length s <= n -> truncate n s = s.
Proof.
  revert n; induction s as [|c s IH]; intros [|n] H; simpl in *;
    try reflexivity; try lia.
  f_equal; apply IH; lia.
Qed.

Lemma length_truncate (n : nat) (s : string) :
  String.length (truncate n s) = Nat.min n (String.length s).
Proof.
  revert n; induction s as [|c s IH]; intros [|n]; simpl; auto.
Qed.

Lemma truncate_prefix (n : nat) (s : string) :
  exists t, s = truncate n s ++ t.
Proof.
  revert n; induction s as [|c s IH]; intros [|n]; simpl.
  - now exists EmptyString.
  - now exists EmptyString.
  - now exists (String c s).
  - destruct (IH n) as [t Ht]. exists t. now rewrite <- Ht.
Qed.

Lemma is_c_string_truncate (n : nat) (s : string) :
  is_c_string s = true -> is_c_string (truncate n s) = true.
Proof.
  revert n; induction s as [|c s IH]; intros [|n] H; simpl in *; auto.
  apply andb_true_iff in H as [Hc Hs].
  rewrite Hc; simpl; auto.
Qed.

Lemma is_c_string_app (s t : string) :
  is_c_string (s ++ t) = is_c_string s && is_c_string t.
Proof.
  induction s as [|c s IH]; simpl; auto.
  now rewrite IH, andb_assoc.
Qed.

Lemma list_ascii_of_string_app (s t : string) :
  list_ascii_of_string (s ++ t) =
  (list_ascii_of_string s ++ list_ascii_of_string t)%list.
Proof. induction s as [|c s IH]; simpl; congruence. Qed.

(** A terminated C string is read back whatever follows it. *)
Lemma c_str_terminated (s : string) (rest : list ascii) :
  is_c_string s = true ->
  c_str (list_ascii_of_string s ++ NUL :: rest)%list = Some s.
Proof.
  induction s as [|c s IH]; simpl; intros H.
  - reflexivity.
  - apply andb_true_iff in H as [Hc Hs].
    apply negb_true_iff in Hc. rewrite Hc, (IH Hs). reflexivity.
Qed.

(** An array without terminator cannot be read as a string. *)
Lemma c_str_unterminated (b : list ascii) :
  forallb (fun c => negb (Ascii.eqb c NUL)) b = true -> c_str b = None.
Proof.
  induction b as [|c b IH]; simpl; intros H; auto.
  apply andb_true_iff in H as [Hc Hb].
  apply negb_true_iff in Hc. now rewrite Hc, (IH Hb).
Qed.

Lemma firstn_length_app {A : Type} (l r : list A) :
  firstn (List.length l) (l ++ r)%list = l.
Proof.
  rewrite firstn_app, Nat.sub_diag, firstn_all. simpl. apply app_nil_r.
Qed.

Lemma skipn_length_app {A : Type} (l r : list A) :
  skipn (List.length l) (l ++ r)%list = r.
Proof.
  rewrite skipn_app, Nat.sub_diag, skipn_all. reflexivity.
Qed.

Lemma store_at_0 (b bs : list ascii) :
  store b 0 bs = (bs ++ skipn (List.length bs) b)%list.
Proof. reflexivity. Qed.

(** A store right after a prefix of the array leaves the prefix alone. *)
Lemma store_after (l r bs : list ascii) :
  store (l ++ r) (List.length l) bs =
  (l ++ bs ++ skipn (List.length bs) r)%list.
Proof.
  unfold store. rewrite firstn_length_app, skipn_app.
  rewrite skipn_all2 by lia.
  replace (List.length l + List.length bs - List.length l)
    with (List.length bs) by lia.
  reflexivity.
Qed.

(** A store inside the array keeps its size. *)
Lemma length_store (b : list ascii) (off : nat) (bs : list ascii) :
  off + List.length bs <= List.length b ->
  List.length (store b off bs) = List.length b.
Proof.
  intros H. unfold store.
  rewrite !length_app, length_firstn, length_skipn. lia.
Qed.

Lemma length_strlcpy (b : list ascii) (off : nat) (src : string) (size : nat) :
  off + size <= List.length b ->
  List.length (strlcpy b off src size) = List.length b.
Proof.
  destruct size as [|n]; simpl; intros H; auto.
  apply length_store.
  rewrite length_app, length_list_ascii_of_string, length_truncate. simpl. lia.
Qed.

(** [strlcpy] at the start of an array of at least one byte. *)
Lemma c_str_strlcpy_0 (b : list ascii) (src : string) (n : nat) :
  is_c_string src = true ->
  c_str (strlcpy b 0 src (S n)) = Some (truncate n src).
Proof.
  intros H. unfold strlcpy. rewrite store_at_0, <- app_assoc. simpl.
  apply c_str_terminated. now apply is_c_string_truncate.
Qed.

(** The length [strlen] finds is that of the string read. *)
Lemma strlen_c_str (b : list ascii) (s : string) :
  c_str b = Some s -> strlen b = Some (String.length s).
Proof. unfold strlen. now intros ->. Qed.

(** A string read from an array ends before the end of the array. *)
Lemma c_str_length (b : list ascii) (s : string) :
  c_str b = Some s -> String.length s < List.length b.
Proof.
  revert s; induction b as [|c b IH]; simpl; intros s H; [discriminate|].
  destruct (Ascii.eqb c NUL).
  - injection H as <-. simpl. lia.
  - destruct (c_str b) as [t|]; [|discriminate].
    injection H as <-. simpl. specialize (IH t eq_refl). lia.
Qed.

(** ** The path resolver *)

Section PathResolver.

Variable PATH_MAX : nat.
Variable os : host.

Lemma length_uninitialised : List.length (uninitialised PATH_MAX os) = PATH_MAX.
Proof. unfold uninitialised. now rewrite length_map, length_seq. Qed.

Lemma realpath_into_none (path : string) (buf : list ascii) :
  realpath os path = None -> realpath_into PATH_MAX os path buf = None.
Proof. unfold realpath_into. now intros ->. Qed.

(** Every store of [resolve] stays inside [fullPath]. *)
Lemma length_resolve (path : string) (fullPath : list ascii) :
  resolve PATH_MAX os path = Some fullPath -> List.length fullPath = PATH_MAX.
Proof.
  unfold resolve, realpath_into, getcwd.
  pose proof length_uninitialised as Hu.
  destruct (realpath os path) as [r|].
  - destruct (String.length r <? PATH_MAX)%nat eqn:Hr.
    + apply Nat.ltb_lt in Hr. intros [= <-].
      rewrite length_store; auto.
      rewrite length_app, length_list_ascii_of_string. simpl. lia.
    + destruct (negb (first_char path =? "/")%char).
      * destruct (cwd os) as [d|]; [|discriminate].
        destruct (String.length d <? PATH_MAX)%nat eqn:Hd; [|discriminate].
        apply Nat.ltb_lt in Hd.
        set (b := store _ 0 _).
        assert (Hb : List.length b = PATH_MAX).
        { unfold b. rewrite length_store; auto.
          rewrite length_app, length_list_ascii_of_string. simpl. lia. }
        destruct (strlen b) as [len|] eqn:Hlen; [|discriminate].
        unfold strlen in Hlen.
        destruct (c_str b) as [s|] eqn:Hs; [|discriminate].
        apply c_str_length in Hs. injection Hlen as <-.
        intros [= <-].
        rewrite length_strlcpy; rewrite length_store; simpl; lia.
      * intros [= <-]. rewrite length_strlcpy; simpl; lia.
  - destruct (negb (first_char path =? "/")%char).
    + destruct (cwd os) as [d|]; [|discriminate].
      destruct (String.length d <? PATH_MAX)%nat eqn:Hd; [|discriminate].
      apply Nat.ltb_lt in Hd.
      set (b := store _ 0 _).
      assert (Hb : List.length b = PATH_MAX).
      { unfold b. rewrite length_store; auto.
        rewrite length_app, length_list_ascii_of_string. simpl. lia. }
      destruct (strlen b) as [len|] eqn:Hlen; [|discriminate].
      unfold strlen in Hlen.
      destruct (c_str b) as [s|] eqn:Hs; [|discriminate].
      apply c_str_length in Hs. injection Hlen as <-.
      intros [= <-].
      rewrite length_strlcpy; rewrite length_store; simpl; lia.
    + intros [= <-]. rewrite length_strlcpy; simpl; lia.
Qed.

(** An existing entry resolves to what [realpath] answers. *)
Lemma resolved_canonical (path r : string) :
  realpath os path = Some r ->
  is_c_string r = true ->
  String.length r < PATH_MAX ->
  resolved_bytes PATH_MAX os path = Some r.
Proof.
  intros Hr Hc Hlen. unfold resolved_bytes, resolve, realpath_into.
  rewrite Hr. apply Nat.ltb_lt in Hlen. rewrite Hlen.
  rewrite store_at_0, <- app_assoc. simpl.
  now apply c_str_terminated.
Qed.

(** A missing absolute path: as much of it as the array holds. *)
Lemma resolved_absolute (path : string) :
  is_c_string path = true ->
  first_char path = "/"%char ->
  realpath os path = None ->
  0 < PATH_MAX ->
  resolved_bytes PATH_MAX os path = Some (truncate (PATH_MAX - 1) path).
Proof.
  intros Hc Hf Hr Hpos. unfold resolved_bytes, resolve.
  rewrite (realpath_into_none _ _ Hr), Hf. simpl.
  destruct PATH_MAX as [|n]; [lia|].
  rewrite c_str_strlcpy_0; auto.
  simpl. now rewrite Nat.sub_0_r.
Qed.

(** A missing relative path: the working directory, a slash and as much of
    the path as the rest of the array holds. *)
Lemma resolved_relative (path d : string) :
  is_c_string path = true ->
  is_c_string d = true ->
  first_char path <> "/"%char ->
  realpath os path = None ->
  cwd os = Some d ->
  String.length d + 1 < PATH_MAX ->
  resolved_bytes PATH_MAX os path =
  Some (d ++ "/" ++ truncate (PATH_MAX - (String.length d + 1) - 1) path).
Proof.
  intros Hc Hd Hf Hr Hcwd Hlen. unfold resolved_bytes, resolve.
  rewrite (realpath_into_none _ _ Hr).
  apply Ascii.eqb_neq in Hf. rewrite Hf. simpl.
  unfold getcwd. rewrite Hcwd.
  assert (Hfit : (String.length d <? PATH_MAX)%nat = true)
    by (apply Nat.ltb_lt; lia).
  rewrite Hfit, store_at_0, <- app_assoc. simpl.
  set (rest := skipn _ _).
  rewrite (strlen_c_str _ _ (c_str_terminated d rest Hd)).
  rewrite <- (length_list_ascii_of_string d) at 1.
  rewrite store_after. simpl (skipn _ (NUL :: rest)).
  destruct (PATH_MAX - (String.length d + 1)) as [|n] eqn:Hn; [lia|].
  unfold strlcpy. simpl (S n - 1). rewrite Nat.sub_0_r.
  replace (String.length d + 1)
    with (List.length (list_ascii_of_string d ++ ["/"%char])%list)
    by (rewrite length_app, length_list_ascii_of_string; reflexivity).
  rewrite (app_assoc (list_ascii_of_string d) ["/"%char] rest), store_after.
  set (rest' := skipn _ rest).
  replace ((list_ascii_of_string d ++ ["/"%char]) ++
           (list_ascii_of_string (truncate n path) ++ [NUL]) ++ rest')%list
    with (list_ascii_of_string (d ++ "/" ++ truncate n path) ++ NUL :: rest')%list.
  - apply c_str_terminated.
    rewrite is_c_string_app, Hd. simpl. now apply is_c_string_truncate.
  - rewrite !list_ascii_of_string_app, <- !app_assoc. reflexivity.
Qed.

(** A working directory that fills the array but for one byte: the slash
    takes the place of its terminator and nothing can follow, so that the
    array holds no string any more. *)
Lemma resolved_unterminated (path d : string) :
  is_c_string d = true ->
  first_char path <> "/"%char ->
  realpath os path = None ->
  cwd os = Some d ->
  String.length d + 1 = PATH_MAX ->
  resolved_bytes PATH_MAX os path = None.
Proof.
  intros Hd Hf Hr Hcwd Hlen. unfold resolved_bytes, resolve.
  rewrite (realpath_into_none _ _ Hr).
  apply Ascii.eqb_neq in Hf. rewrite Hf. simpl.
  unfold getcwd. rewrite Hcwd.
  assert (Hfit : (String.length d <? PATH_MAX)%nat = true)
    by (apply Nat.ltb_lt; lia).
  rewrite Hfit, store_at_0, <- app_assoc. simpl.
  rewrite skipn_all2
    by (rewrite length_uninitialised, length_app, length_list_ascii_of_string;
        simpl; lia).
  rewrite (strlen_c_str _ _ (c_str_terminated d [] Hd)).
  replace (PATH_MAX - (String.length d + 1)) with 0 by lia.
  unfold strlcpy.
  rewrite <- (length_list_ascii_of_string d) at 1.
  rewrite store_after. simpl (skipn _ [NUL]).
  apply c_str_unterminated.
  rewrite forallb_app. simpl. rewrite andb_true_r.
  clear - Hd. induction d as [|c d IH]; simpl in *; auto.
  apply andb_true_iff in Hd as [-> Hd]. simpl. auto.
Qed.

(** What [append_path] hands over is the string of [fullPath], when
    CoreFoundation decodes it. *)
Lemma resolved_decoded (path s : string) :
  resolved PATH_MAX os path = Some s <->
  resolved_bytes PATH_MAX os path = Some s /\ decodes os s = true.
Proof.
  unfold resolved, resolved_bytes, CFStringCreateWithCString.
  destruct (resolve PATH_MAX os path) as [b|]; [|split; [|intros []]; discriminate].
  destruct (c_str b) as [t|]; [|split; [|intros []]; discriminate].
  destruct (decodes os t) eqn:Ht; split.
  - intros [= <-]. auto.
  - now intros [[= <-] _].
  - discriminate.
  - intros [[= <-] H]. congruence.
Qed.

Lemma resolved_undecoded (path : string) :
  resolved_bytes PATH_MAX os path = None ->
  resolved PATH_MAX os path = None.
Proof.
  intros H. destruct (resolved PATH_MAX os path) as [s|] eqn:Hs; auto.
  apply resolved_decoded in Hs as [Hs _]. congruence.
Qed.

End PathResolver.

Lemma length_append (s t : string) :
  String.length (s ++ t) = String.length s + String.length t.
Proof. induction s as [|c s IH]; simpl; congruence. Qed.

Lemma append_assoc (s t u : string) : (s ++ t) ++ u = s ++ t ++ u.
Proof. induction s as [|c s IH]; simpl; congruence. Qed.

Lemma append_empty_r (s : string) : s ++ EmptyString = s.
Proof. induction s as [|c s IH]; simpl; congruence. Qed.

Section AppendPath.

Variable PATH_MAX : nat.
Variable os : host.

(** A missing path, absolute or relative: its base and as much of the input
    as the rest of the array holds. *)
Lemma resolved_missing (path base : string) :
  base_of os path = Some base ->
  is_c_string base = true ->
  is_c_string path = true ->
  realpath os path = None ->
  String.length base < PATH_MAX ->
  resolved_bytes PATH_MAX os path =
  Some (base ++ truncate (PATH_MAX - 1 - String.length base) path).
Proof.
  unfold base_of. intros Hb Hcb Hcp Hr Hlen.
  destruct (first_char path =? "/")%char eqn:Hf.
  - injection Hb as <-. simpl in *. rewrite Nat.sub_0_r.
    apply resolved_absolute; auto. now apply Ascii.eqb_eq.
  - destruct (cwd os) as [d|] eqn:Hcwd; [|discriminate].
    injection Hb as <-.
    rewrite is_c_string_app in Hcb. apply andb_true_iff in Hcb as [Hd _].
    rewrite length_append in *. simpl in *.
    rewrite (resolved_relative PATH_MAX os path d Hcp Hd); auto.
    + rewrite append_assoc. simpl. do 4 f_equal. lia.
    + now apply Ascii.eqb_neq.
Qed.

Lemma append_path_resolved (path s : string) (a : list string) (p : process) :
  resolved PATH_MAX os path = Some s ->
  paths (config p) = Some a ->
  append_path PATH_MAX os path p =
  Returns tt (set_config (set_paths (Some (a ++ [s])%list)) p).
Proof.
  unfold resolved, append_path, bind, defined, CFArrayAppendValue, ret.
  destruct (resolve PATH_MAX os path) as [b|]; [|discriminate].
  destruct (CFStringCreateWithCString os b) as [[t|]|];
    try discriminate.
  intros [= ->] ->. reflexivity.
Qed.

Lemma append_path_returns (path : string) (p p' : process) :
  append_path PATH_MAX os path p = Returns tt p' ->
  exists s a,
    resolved PATH_MAX os path = Some s /\
    paths (config p) = Some a /\
    p' = set_config (set_paths (Some (a ++ [s])%list)) p.
Proof.
  unfold resolved, append_path, bind, defined, CFArrayAppendValue, ret.
  destruct (resolve PATH_MAX os path) as [b|]; [|discriminate].
  unfold undefined.
  destruct (CFStringCreateWithCString os b) as [[s|]|];
    try discriminate.
  destruct (paths (config p)) as [a|]; [|discriminate].
  intros [= <-]. now exists s, a.
Qed.

(** [append_path] never leaves the process. *)
Lemma append_path_outcome (path : string) (p : process) :
  append_path PATH_MAX os path p = Undefined \/
  exists p', append_path PATH_MAX os path p = Returns tt p'.
Proof.
  unfold append_path, bind, defined, CFArrayAppendValue, undefined, ret.
  destruct (resolve PATH_MAX os path) as [b|]; auto.
  destruct (CFStringCreateWithCString os b) as [[s|]|]; auto.
  destruct (paths (config p)) as [a|]; eauto.
Qed.

End AppendPath.

(** ** Claims on the path resolver *)

(** C2 (amended): when canonicalization fails and the resolved form of the
    input, with its terminator, exceeds [PATH_MAX] bytes, resolution is not
    an error: the input is cut.  What is kept is the base of the input
    (nothing for an absolute input, the working directory and a slash for a
    relative one, which must leave room in the array) followed by the first
    bytes of the input, [PATH_MAX - 1] bytes in all; when CoreFoundation
    decodes these bytes as UTF-8, they are the path appended and the program
    goes on. *)
Theorem append_path_overflow_truncates
  (PATH_MAX : nat) (os : host) (path base : string)
  (a : list string) (p : process) :
  base_of os path = Some base ->
  is_c_string base = true ->
  is_c_string path = true ->
  realpath os path = None ->
  String.length base < PATH_MAX ->
  PATH_MAX <= String.length base + String.length path ->
  paths (config p) = Some a ->
  let kept := base ++ truncate (PATH_MAX - 1 - String.length base) path in
  decodes os kept = true ->
  append_path PATH_MAX os path p =
    Returns tt (set_config (set_paths (Some (a ++ [kept])%list)) p) /\
  String.length kept = PATH_MAX - 1.
Proof.
  intros Hb Hcb Hcp Hr Hlen Hover Hp kept Hutf. split.
  - apply append_path_resolved; auto. apply resolved_decoded.
    split; [|exact Hutf]. now apply resolved_missing.
  - unfold kept. rewrite length_append, length_truncate. lia.
Qed.

(** C4 (amended): an absolute input that [realpath] rejects, that fits the
    array with its terminator and that CoreFoundation decodes as UTF-8 is
    resolved to itself, and appended unchanged. *)
Theorem absolute_missing_path_unchanged
  (PATH_MAX : nat) (os : host) (path : string) :
  is_c_string path = true ->
  first_char path = "/"%char ->
  realpath os path = None ->
  String.length path < PATH_MAX ->
  decodes os path = true ->
  resolved PATH_MAX os path = Some path /\
  forall (p : process) (a : list string),
    paths (config p) = Some a ->
    append_path PATH_MAX os path p =
    Returns tt (set_config (set_paths (Some (a ++ [path])%list)) p).
Proof.
  intros Hc Hf Hr Hlen Hutf.
  assert (H : resolved PATH_MAX os path = Some path).
  { apply resolved_decoded. split; [|exact Hutf].
    rewrite resolved_absolute; auto; [|lia].
    rewrite truncate_all; auto. lia. }
  split; auto. intros p a Hp. now apply append_path_resolved.
Qed.

(** C5 (amended): a relative input that [realpath] rejects is resolved to
    the working directory [getcwd] answers, a slash and the input, by
    concatenation alone, when the three fit the array with their
    terminator and CoreFoundation decodes the whole as UTF-8. *)
Theorem relative_missing_path_concatenated
  (PATH_MAX : nat) (os : host) (path d : string) :
  is_c_string path = true ->
  is_c_string d = true ->
  first_char path <> "/"%char ->
  realpath os path = None ->
  cwd os = Some d ->
  String.length d + 1 + String.length path < PATH_MAX ->
  decodes os (d ++ "/" ++ path) = true ->
  resolved PATH_MAX os path = Some (d ++ "/" ++ path) /\
  forall (p : process) (a : list string),
    paths (config p) = Some a ->
    append_path PATH_MAX os path p =
    Returns tt (set_config
                  (set_paths (Some (a ++ [(d ++ "/" ++ path)%string])%list)) p).
Proof.
  intros Hc Hd Hf Hr Hcwd Hlen Hutf.
  assert (H : resolved PATH_MAX os path = Some (d ++ "/" ++ path)).
  { apply resolved_decoded. split; [|exact Hutf].
    rewrite (resolved_relative PATH_MAX os path d Hc Hd); auto; [|lia].
    rewrite truncate_all; auto. lia. }
  split; auto. intros p a Hp. now apply append_path_resolved.
Qed.

(** ** The event formatter *)

Lemma emit_empty (p : process) : emit EmptyString p = p.
Proof.
  destruct p as [c [b w] e k]. unfold emit, fputs. simpl.
  now rewrite append_empty_r.
Qed.

Lemma emit_emit (s t : string) (p : process) :
  emit t (emit s p) = emit (s ++ t) p.
Proof. unfold emit, fputs. simpl. now rewrite append_assoc. Qed.

(** The digits [decimal] prints read back as the number printed. *)
Lemma decimal_reads_back (n : N) :
  option_map N.of_uint (NilEmpty.uint_of_string (decimal n)) = Some n.
Proof.
  unfold decimal. rewrite NilEmpty.usu. simpl.
  now rewrite DecimalN.Unsigned.of_to.
Qed.

Lemma nth_error_map_middle {A B : Type} (f : A -> B) (pre : list A) (x : A)
  (l : list A) :
  nth_error (map f (pre ++ x :: l)) (List.length pre) = Some (f x).
Proof.
  rewrite nth_error_map, nth_error_app2, Nat.sub_diag by lia. reflexivity.
Qed.

(** The loop of the classic format, started at the record that follows
    [pre]. *)
Lemma classic_output_format_loop_text (batch pre : list event) (p : process) :
  classic_output_format_loop (List.length batch) (List.length pre)
                             (map ev_path (pre ++ batch)) p =
  Returns tt (emit (join (map (fun e => ev_path e ++ ":") batch)) p).
Proof.
  revert pre p. induction batch as [|e batch IH]; intros pre p.
  - simpl. now rewrite emit_empty.
  - simpl List.length. simpl classic_output_format_loop.
    unfold bind at 1. rewrite nth_error_map_middle. simpl.
    unfold bind at 1. unfold fprintf_stdout at 1, modify at 1.
    replace (pre ++ e :: batch)%list with ((pre ++ [e]) ++ batch)%list
      by (rewrite <- app_assoc; reflexivity).
    replace (S (List.length pre)) with (List.length (pre ++ [e])%list)
      by (rewrite length_app; simpl; lia).
    rewrite IH, emit_emit. reflexivity.
Qed.

Lemma classic_output_format_text (batch : list event) (p : process) :
  classic_output_format (List.length batch) (map ev_path batch) p =
  Returns tt (emit (classic_text batch) p).
Proof.
  unfold classic_output_format, bind.
  pose proof (classic_output_format_loop_text batch [] p) as H.
  simpl in H. rewrite H.
  unfold fprintf_stdout, modify. now rewrite emit_emit.
Qed.

(** The loop of the annotated format, started at the record that follows
    [pre]. *)
Lemma niw_output_format_loop_text (batch pre : list event) (p : process) :
  niw_output_format_loop (List.length batch) (List.length pre)
                         (map ev_path (pre ++ batch))
                         (map ev_flags (pre ++ batch))
                         (map ev_id (pre ++ batch)) p =
  Returns tt
    (emit (join (map (fun e => decimal (ev_flags e) ++ ":"
                               ++ decimal (ev_id e) ++ ":"
                               ++ ev_path e ++ LF) batch)) p).
Proof.
  revert pre p. induction batch as [|e batch IH]; intros pre p.
  - simpl. now rewrite emit_empty.
  - simpl List.length. simpl niw_output_format_loop.
    unfold bind at 1. rewrite nth_error_map_middle. simpl.
    unfold bind at 1. rewrite nth_error_map_middle. simpl.
    unfold bind at 1. rewrite nth_error_map_middle. simpl.
    unfold bind at 1. unfold fprintf_stdout at 1, modify at 1.
    replace (pre ++ e :: batch)%list with ((pre ++ [e]) ++ batch)%list
      by (rewrite <- app_assoc; reflexivity).
    replace (S (List.length pre)) with (List.length (pre ++ [e])%list)
      by (rewrite length_app; simpl; lia).
    rewrite IH, emit_emit. reflexivity.
Qed.

Lemma niw_output_format_text (batch : list event) (p : process) :
  niw_output_format (List.length batch) (map ev_path batch)
                    (map ev_flags batch) (map ev_id batch) p =
  Returns tt (emit (annotated_text batch) p).
Proof.
  unfold niw_output_format, bind.
  pose proof (niw_output_format_loop_text batch [] p) as H.
  simpl in H. rewrite H.
  unfold fprintf_stdout, modify. now rewrite emit_emit.
Qed.

Section Callback.

Variable kFSEventWatchOutputFormatClassic : Z.
Variable kFSEventWatchOutputFormatNIW : Z.

(** The callback is the formatter the format selects, if any, and a
    flush. *)
Lemma callback_classic (n : nat) (paths : list string) (fl ids : list N)
  (p : process) :
  format (config p) = kFSEventWatchOutputFormatClassic ->
  callback kFSEventWatchOutputFormatClassic kFSEventWatchOutputFormatNIW
           n paths fl ids p =
  (classic_output_format n paths ;; fflush_stdout) p.
Proof.
  intros H. unfold callback, bind at 1, get_config.
  now rewrite H, Z.eqb_refl.
Qed.

Lemma callback_niw (n : nat) (paths : list string) (fl ids : list N)
  (p : process) :
  format (config p) <> kFSEventWatchOutputFormatClassic ->
  format (config p) = kFSEventWatchOutputFormatNIW ->
  callback kFSEventWatchOutputFormatClassic kFSEventWatchOutputFormatNIW
           n paths fl ids p =
  (niw_output_format n paths fl ids ;; fflush_stdout) p.
Proof.
  intros Hc H. unfold callback, bind at 1, get_config.
  apply Z.eqb_neq in Hc. now rewrite Hc, H, Z.eqb_refl.
Qed.

Lemma callback_other (n : nat) (paths : list string) (fl ids : list N)
  (p : process) :
  format (config p) <> kFSEventWatchOutputFormatClassic ->
  format (config p) <> kFSEventWatchOutputFormatNIW ->
  callback kFSEventWatchOutputFormatClassic kFSEventWatchOutputFormatNIW
           n paths fl ids p = Returns tt (flushed p).
Proof.
  intros Hc Hn. unfold callback, bind, get_config.
  apply Z.eqb_neq in Hc, Hn. now rewrite Hc, Hn.
Qed.

End Callback.

(** ** Claims on the event formatter *)

(** C6: in the classic format a batch is printed as its paths in order, each
    followed by a colon, and one line feed after the last: the formatter
    queues this text on [stdout] after what is queued there, and the
    callback leaves it written after what [stdout] held, with nothing
    queued, whatever the arrays of flags and ids hold; nothing else in the
    process changes.  The batch of ["/tmp/a"] and ["/tmp/b"] is printed as
    ["/tmp/a:/tmp/b:\n"]. *)
Theorem classic_format_output
  (kFSEventWatchOutputFormatClassic kFSEventWatchOutputFormatNIW : Z)
  (batch : list event) (fl ids : list N) (p : process) :
  format (config p) = kFSEventWatchOutputFormatClassic ->
  let text := join (map (fun e => ev_path e ++ ":") batch) ++ LF in
  classic_output_format (List.length batch) (map ev_path batch) p =
    Returns tt
      (mk_process (config p)
                  (mk_FILE (buffered (stdout p) ++ text) (written (stdout p)))
                  (stderr p) (calls p)) /\
  callback kFSEventWatchOutputFormatClassic kFSEventWatchOutputFormatNIW
           (List.length batch) (map ev_path batch) fl ids p =
    Returns tt
      (mk_process (config p)
                  (mk_FILE EmptyString
                           (written (stdout p) ++ buffered (stdout p) ++ text))
                  (stderr p) (calls p)) /\
  join (map (fun e => ev_path e ++ ":")
            [mk_event "/tmp/a" 0 1; mk_event "/tmp/b" 0 2]) ++ LF =
    "/tmp/a:/tmp/b:" ++ LF.
Proof.
  intros H text. split; [|split].
  - rewrite classic_output_format_text. reflexivity.
  - rewrite callback_classic by exact H.
    unfold bind. rewrite classic_output_format_text. reflexivity.
  - reflexivity.
Qed.

(** C7: in the annotated format a batch is printed as one line per record,
    in order, made of the flags in decimal, a colon, the event id in
    decimal, a colon and the path, and one empty line after the last: the
    formatter queues this text on [stdout] after what is queued there, and
    the callback leaves it written after what [stdout] held, with nothing
    queued; nothing else in the process changes.  The batch of ["/tmp/a"]
    (flags 0, id 1) and ["/tmp/b"] (flags 0, id 2) is printed as
    ["0:1:/tmp/a\n0:2:/tmp/b\n\n"]. *)
Theorem annotated_format_output
  (kFSEventWatchOutputFormatClassic kFSEventWatchOutputFormatNIW : Z)
  (batch : list event) (p : process) :
  kFSEventWatchOutputFormatClassic <> kFSEventWatchOutputFormatNIW ->
  format (config p) = kFSEventWatchOutputFormatNIW ->
  let text :=
    join (map (fun e => decimal (ev_flags e) ++ ":" ++ decimal (ev_id e)
                        ++ ":" ++ ev_path e ++ LF) batch) ++ LF in
  (forall n : N,
     option_map N.of_uint (NilEmpty.uint_of_string (decimal n)) = Some n) /\
  niw_output_format (List.length batch) (map ev_path batch)
                    (map ev_flags batch) (map ev_id batch) p =
    Returns tt
      (mk_process (config p)
                  (mk_FILE (buffered (stdout p) ++ text) (written (stdout p)))
                  (stderr p) (calls p)) /\
  deliver kFSEventWatchOutputFormatClassic kFSEventWatchOutputFormatNIW
          batch p =
    Returns tt
      (mk_process (config p)
                  (mk_FILE EmptyString
                           (written (stdout p) ++ buffered (stdout p) ++ text))
                  (stderr p) (calls p)) /\
  join (map (fun e => decimal (ev_flags e) ++ ":" ++ decimal (ev_id e)
                      ++ ":" ++ ev_path e ++ LF)
            [mk_event "/tmp/a" 0 1; mk_event "/tmp/b" 0 2]) ++ LF =
    "0:1:/tmp/a" ++ LF ++ "0:2:/tmp/b" ++ LF ++ LF.
Proof.
  intros Hd H text. split; [|split; [|split]].
  - apply decimal_reads_back.
  - rewrite niw_output_format_text. reflexivity.
  - unfold deliver. rewrite callback_niw by congruence.
    unfold bind. rewrite niw_output_format_text. reflexivity.
  - reflexivity.
Qed.

(** C10: on a batch of no event the callback prints one line feed in the
    classic format and one line feed in the annotated format, and flushes;
    when the format is neither of the two it prints nothing, whatever the
    batch, and flushes.  After the flush nothing is left queued on
    [stdout]. *)
Theorem empty_batch_output
  (kFSEventWatchOutputFormatClassic kFSEventWatchOutputFormatNIW : Z)
  (paths : list string) (fl ids : list N) (p : process) :
  kFSEventWatchOutputFormatClassic <> kFSEventWatchOutputFormatNIW ->
  let callback' :=
    callback kFSEventWatchOutputFormatClassic kFSEventWatchOutputFormatNIW in
  (format (config p) = kFSEventWatchOutputFormatClassic ->
   classic_output_format 0 paths p = Returns tt (emit LF p) /\
   callback' 0 paths fl ids p = Returns tt (flushed (emit LF p))) /\
  (format (config p) = kFSEventWatchOutputFormatNIW ->
   niw_output_format 0 paths fl ids p = Returns tt (emit LF p) /\
   callback' 0 paths fl ids p = Returns tt (flushed (emit LF p))) /\
  (format (config p) <> kFSEventWatchOutputFormatClassic ->
   format (config p) <> kFSEventWatchOutputFormatNIW ->
   forall n, callback' n paths fl ids p = Returns tt (flushed p)) /\
  stdout (flushed (emit LF p)) =
    mk_FILE EmptyString (written (stdout p) ++ buffered (stdout p) ++ LF) /\
  stdout (flushed p) = mk_FILE EmptyString (written (stdout p) ++ buffered (stdout p)).
Proof.
  intros Hd callback'. unfold callback'.
  split; [|split; [|split; [|split]]]; try reflexivity.
  - intros H. split; [reflexivity|]. now rewrite callback_classic.
  - intros H. split; [reflexivity|]. rewrite callback_niw; auto. congruence.
  - intros Hc Hn n. now apply callback_other.
Qed.

(** ** The command line and the version checks *)

Lemma c_true_land (a b : bool) :
  c_true (Z.land (Z.b2z a) (Z.b2z b)) = a && b.
Proof. now destruct a, b. Qed.

Lemma bind_ret_tt (m : M unit) (p : process) : (m ;; ret tt) p = m p.
Proof. unfold bind, ret. destruct (m p) as [[] p'|?|?|]; reflexivity. Qed.

Lemma append_inv_head (s t u : string) : s ++ t = s ++ u -> t = u.
Proof. induction s as [|c s IH]; simpl; intros H; auto. injection H; auto. Qed.

Section CommandLine.

Variable PATH_MAX : nat.
Variable cli_parser : list string -> option cli_info.
Variable os : host.

(** The paths are appended in order, each as it is resolved. *)
Lemma for_each_append_path_resolved (l ps a : list string) (p : process) :
  Forall2 (fun input s => resolved PATH_MAX os input = Some s) l ps ->
  paths (config p) = Some a ->
  for_each (append_path PATH_MAX os) l p =
  Returns tt (set_config (set_paths (Some (a ++ ps)%list)) p).
Proof.
  intros H. revert a p. induction H as [|x s l ps Hx _ IH]; intros a p Hp.
  - simpl. unfold ret. rewrite app_nil_r. f_equal.
    destruct p as [[sw la fl pa fo] o e k]. simpl in *. now subst.
  - simpl. unfold bind.
    rewrite (append_path_resolved PATH_MAX os x s a p Hx Hp).
    rewrite (IH (a ++ [s])%list) by reflexivity.
    rewrite <- app_assoc. reflexivity.
Qed.

Lemma for_each_append_path_returns (l a : list string) (p p' : process) :
  for_each (append_path PATH_MAX os) l p = Returns tt p' ->
  paths (config p) = Some a ->
  exists ps,
    Forall2 (fun input s => resolved PATH_MAX os input = Some s) l ps /\
    p' = set_config (set_paths (Some (a ++ ps)%list)) p.
Proof.
  revert a p. induction l as [|x l IH]; intros a p H Hp.
  - exists []. split; [constructor|]. simpl in H. injection H as <-.
    rewrite app_nil_r.
    destruct p as [[sw la fl pa fo] o e k]. simpl in *. now subst.
  - simpl in H. unfold bind in H.
    destruct (append_path PATH_MAX os x p) as [[] p1|?|?|] eqn:Hx;
      try discriminate.
    apply append_path_returns in Hx as (s & a' & Hs & Ha & ->).
    rewrite Hp in Ha. injection Ha as <-.
    apply (IH (a ++ [s])%list) in H as (ps & Hps & ->); [|reflexivity].
    exists (s :: ps). split; [now constructor|].
    rewrite <- app_assoc. reflexivity.
Qed.

(** Appending paths never leaves the process. *)
Lemma for_each_append_path_outcome (l : list string) (p : process) :
  for_each (append_path PATH_MAX os) l p = Undefined \/
  exists p', for_each (append_path PATH_MAX os) l p = Returns tt p'.
Proof.
  revert p. induction l as [|x l IH]; intros p.
  - right. now exists p.
  - simpl. unfold bind.
    destruct (append_path_outcome PATH_MAX os x p) as [->|[p1 ->]]; auto.
Qed.

(** The last statement of [parse_cli_settings]. *)
Lemma append_watched_inputs (a : cli_info) (p : process) :
  (if (inputs_num a =? 0)%nat
   then append_path PATH_MAX os "."
   else for_each (append_path PATH_MAX os) (inputs a)) p =
  for_each (append_path PATH_MAX os) (watched_inputs a) p.
Proof.
  unfold inputs_num, watched_inputs. destruct (inputs a) as [|x l]; simpl.
  - now rewrite bind_ret_tt.
  - reflexivity.
Qed.

(** The five ways through [parse_cli_settings]. *)

Lemma parse_cli_settings_refuses (argv : list string) (p : process) :
  unavailable (detect os gestaltSystemVersionMajor)
              (detect os gestaltSystemVersionMinor) = true ->
  parse_cli_settings PATH_MAX cli_parser os argv p =
  Exits EXIT_FAILURE (flushed (complain unavailable_diagnostic p)).
Proof.
  unfold unavailable, parse_cli_settings. intros H.
  rewrite c_true_land, H. reflexivity.
Qed.

Lemma parse_cli_settings_usage (argv : list string) (p : process) :
  unavailable (detect os gestaltSystemVersionMajor)
              (detect os gestaltSystemVersionMinor) = false ->
  cli_parser argv = None ->
  parse_cli_settings PATH_MAX cli_parser os argv p =
  Exits EXIT_FAILURE (flushed p).
Proof.
  unfold unavailable, parse_cli_settings. intros H Hcli.
  rewrite c_true_land, H, Hcli. reflexivity.
Qed.

Lemma parse_cli_settings_no_ignore_self (argv : list string) (a : cli_info)
  (p : process) :
  unavailable (detect os gestaltSystemVersionMajor)
              (detect os gestaltSystemVersionMinor) = false ->
  cli_parser argv = Some a ->
  c_true (ignore_self_flag a) = true ->
  gate (detect os gestaltSystemVersionMajor)
         (detect os gestaltSystemVersionMinor) 6 = false ->
  parse_cli_settings PATH_MAX cli_parser os argv p =
  Exits EXIT_FAILURE
    (flushed
       (complain ignore_self_diagnostic
          (set_config
             (configure a (flags_with (flags (config p))
                                      (c_true (no_defer_flag a))
                                      (c_true (watch_root_flag a))
                                      false false)) p))).
Proof.
  unfold unavailable, gate, parse_cli_settings.
  intros H Hcli Hreq Hgate.
  rewrite !c_true_land, H, Hcli, Hreq, Z.geb_leb, Hgate.
  unfold bind, modify, or_flags, ret, fprintf_stderr, exit.
  destruct (c_true (no_defer_flag a)), (c_true (watch_root_flag a));
    reflexivity.
Qed.

Lemma parse_cli_settings_no_file_events (argv : list string) (a : cli_info)
  (p : process) :
  unavailable (detect os gestaltSystemVersionMajor)
              (detect os gestaltSystemVersionMinor) = false ->
  cli_parser argv = Some a ->
  (c_true (ignore_self_flag a) = true -> gate (detect os gestaltSystemVersionMajor)
         (detect os gestaltSystemVersionMinor) 6 = true) ->
  c_true (file_events_flag a) = true ->
  gate (detect os gestaltSystemVersionMajor)
         (detect os gestaltSystemVersionMinor) 7 = false ->
  parse_cli_settings PATH_MAX cli_parser os argv p =
  Exits EXIT_FAILURE
    (flushed
       (complain file_events_diagnostic
          (set_config
             (configure a (flags_with (flags (config p))
                                      (c_true (no_defer_flag a))
                                      (c_true (watch_root_flag a))
                                      (c_true (ignore_self_flag a))
                                      false)) p))).
Proof.
  unfold unavailable, gate, parse_cli_settings.
  intros H Hcli Hself Hreq Hgate.
  rewrite !c_true_land, H, Hcli, Hreq, !Z.geb_leb, Hgate.
  unfold bind, modify, or_flags, ret, fprintf_stderr, exit.
  destruct (c_true (ignore_self_flag a));
    [rewrite Hself by reflexivity|];
    destruct (c_true (no_defer_flag a)), (c_true (watch_root_flag a));
    reflexivity.
Qed.

Lemma parse_cli_settings_accepts (argv : list string) (a : cli_info)
  (p : process) :
  unavailable (detect os gestaltSystemVersionMajor)
              (detect os gestaltSystemVersionMinor) = false ->
  cli_parser argv = Some a ->
  (c_true (ignore_self_flag a) = true -> gate (detect os gestaltSystemVersionMajor)
         (detect os gestaltSystemVersionMinor) 6 = true) ->
  (c_true (file_events_flag a) = true -> gate (detect os gestaltSystemVersionMajor)
         (detect os gestaltSystemVersionMinor) 7 = true) ->
  parse_cli_settings PATH_MAX cli_parser os argv p =
  for_each (append_path PATH_MAX os) (watched_inputs a)
    (set_config
       (configure a (flags_with (flags (config p))
                                (c_true (no_defer_flag a))
                                (c_true (watch_root_flag a))
                                (c_true (ignore_self_flag a))
                                (c_true (file_events_flag a)))) p).
Proof.
  unfold unavailable, gate, parse_cli_settings.
  intros H Hcli Hself Hfile.
  rewrite !c_true_land, H, Hcli, !Z.geb_leb.
  unfold bind at 1. unfold modify at 1.
  unfold bind at 1. unfold modify at 1.
  destruct (c_true (file_events_flag a));
    [rewrite Hfile by reflexivity|];
    (destruct (c_true (ignore_self_flag a));
     [rewrite Hself by reflexivity|]);
    destruct (c_true (no_defer_flag a)), (c_true (watch_root_flag a));
    unfold bind, modify, or_flags, ret; simpl;
    apply append_watched_inputs.
Qed.

End CommandLine.

Section Settings.

Variable PATH_MAX : nat.
Variable cli_parser : list string -> option cli_info.
Variable os : host.

(** When [parse_cli_settings] returns, the command line was parsed, every
    requested flag went through its gate and every watched input was
    resolved. *)
Lemma parse_cli_settings_returns (argv : list string) (p p' : process) :
  parse_cli_settings PATH_MAX cli_parser os argv p = Returns tt p' ->
  exists a ps,
    cli_parser argv = Some a /\
    unavailable (detect os gestaltSystemVersionMajor)
              (detect os gestaltSystemVersionMinor) = false /\
    (c_true (ignore_self_flag a) = true -> gate (detect os gestaltSystemVersionMajor)
         (detect os gestaltSystemVersionMinor) 6 = true) /\
    (c_true (file_events_flag a) = true -> gate (detect os gestaltSystemVersionMajor)
         (detect os gestaltSystemVersionMinor) 7 = true) /\
    Forall2 (fun input s => resolved PATH_MAX os input = Some s)
            (watched_inputs a) ps /\
    p' = set_config (set_paths (Some ps))
           (set_config
              (configure a (flags_with (flags (config p))
                                       (c_true (no_defer_flag a))
                                       (c_true (watch_root_flag a))
                                       (c_true (ignore_self_flag a))
                                       (c_true (file_events_flag a)))) p).
Proof.
  intros H.
  destruct (unavailable (detect os gestaltSystemVersionMajor)
                        (detect os gestaltSystemVersionMinor)) eqn:Hu.
  { rewrite parse_cli_settings_refuses in H by exact Hu. discriminate. }
  destruct (cli_parser argv) as [a|] eqn:Hcli.
  2:{ rewrite parse_cli_settings_usage in H by assumption. discriminate. }
  assert (Hself : c_true (ignore_self_flag a) = true ->
                  gate (detect os gestaltSystemVersionMajor)
                       (detect os gestaltSystemVersionMinor) 6 = true).
  { intros Hreq.
    destruct (gate (detect os gestaltSystemVersionMajor)
                   (detect os gestaltSystemVersionMinor) 6) eqn:Hg; auto.
    rewrite (parse_cli_settings_no_ignore_self PATH_MAX cli_parser os argv a)
      in H by assumption.
    discriminate. }
  assert (Hfile : c_true (file_events_flag a) = true ->
                  gate (detect os gestaltSystemVersionMajor)
                       (detect os gestaltSystemVersionMinor) 7 = true).
  { intros Hreq.
    destruct (gate (detect os gestaltSystemVersionMajor)
                   (detect os gestaltSystemVersionMinor) 7) eqn:Hg; auto.
    rewrite (parse_cli_settings_no_file_events PATH_MAX cli_parser os argv a)
      in H by assumption.
    discriminate. }
  rewrite (parse_cli_settings_accepts PATH_MAX cli_parser os argv a)
    in H by assumption.
  apply (for_each_append_path_returns PATH_MAX os _ []) in H
    as (ps & Hps & ->); [|reflexivity].
  exists a, ps. repeat split; auto.
Qed.

(** [parse_cli_settings] makes no native call; it leaves the process with
    [EXIT_FAILURE] only, and never inside a run loop. *)
Lemma parse_cli_settings_outcome (argv : list string) (p : process) :
  match parse_cli_settings PATH_MAX cli_parser os argv p with
  | Returns _ p' => calls p' = calls p /\ stdout p' = stdout p
  | Exits status p' => status = EXIT_FAILURE /\ calls p' = calls p
  | Blocked _ => False
  | Undefined => True
  end.
Proof.
  destruct (unavailable (detect os gestaltSystemVersionMajor)
              (detect os gestaltSystemVersionMinor)) eqn:Hu.
  { rewrite parse_cli_settings_refuses by exact Hu. now split. }
  destruct (cli_parser argv) as [a|] eqn:Hcli.
  2:{ rewrite parse_cli_settings_usage by assumption. now split. }
  destruct (c_true (ignore_self_flag a)) eqn:Hs,
           (gate (detect os gestaltSystemVersionMajor)
         (detect os gestaltSystemVersionMinor) 6) eqn:Hg6;
    try (rewrite (parse_cli_settings_no_ignore_self
                    PATH_MAX cli_parser os argv a) by assumption;
         now split);
    (destruct (c_true (file_events_flag a)) eqn:Hf,
              (gate (detect os gestaltSystemVersionMajor)
         (detect os gestaltSystemVersionMinor) 7) eqn:Hg7;
     try (rewrite (parse_cli_settings_no_file_events
                     PATH_MAX cli_parser os argv a)
            by (auto; intros; congruence);
          now split));
    (rewrite (parse_cli_settings_accepts PATH_MAX cli_parser os argv a)
       by (auto; intros; congruence);
     match goal with
     | |- context [for_each ?f ?l ?q] =>
         destruct (for_each_append_path_outcome PATH_MAX os l q)
           as [->|[p' Hp']]; auto;
         rewrite Hp';
         apply (for_each_append_path_returns PATH_MAX os l []) in Hp'
           as (ps & _ & ->); [|reflexivity];
         now split
     end).
Qed.

End Settings.

(** The test the source writes with [&] on the two comparisons lets a flag
    through exactly on version 10.[minor] with [minor] at least [k] ... *)
Lemma gate_expression (major minor k : Z) :
  c_true (Z.land (Z.b2z (major =? 10)%Z) (Z.b2z (minor >=? k)%Z)) =
  gate major minor k.
Proof. unfold gate. now rewrite c_true_land, Z.geb_leb. Qed.

(** ... which is the test of "version 10.[k] or later" up to major version
    10 ... *)
Lemma gate_up_to_major_10 (major minor k : Z) :
  (major <= 10)%Z ->
  gate major minor k = version_at_least major minor 10 k.
Proof.
  unfold gate, version_at_least. intros H.
  destruct (10 <? major)%Z eqn:Hlt; [apply Z.ltb_lt in Hlt; lia|].
  reflexivity.
Qed.

(** ... and its contrary from major version 11 on. *)
Lemma gate_from_major_11 (major minor k : Z) :
  (10 < major)%Z ->
  gate major minor k = false /\ version_at_least major minor 10 k = true.
Proof.
  unfold gate, version_at_least. intros H.
  destruct (major =? 10)%Z eqn:He; [apply Z.eqb_eq in He; lia|].
  apply Z.ltb_lt in H. now rewrite H.
Qed.

(** The bits of the two gated flags in the flags of the stream. *)
Lemma flags_with_gated_bits (no_defer watch_root ignore_self file_events : bool) :
  let fl := flags_with kFSEventStreamCreateFlagNone
                       no_defer watch_root ignore_self file_events in
  N.testbit fl 3 = ignore_self /\ N.testbit fl 4 = file_events.
Proof. now destruct no_defer, watch_root, ignore_self, file_events. Qed.

(** Up to major version 10 the program does what "10.[k] or later" asks:
    when [parse_cli_settings] returns, every gated flag that was requested
    is allowed by the version and set in [config.flags] ... *)
Lemma gated_flags_up_to_major_10
  (PATH_MAX : nat) (cli_parser : list string -> option cli_info) (os : host)
  (argv : list string) (p p' : process) :
  (detect os gestaltSystemVersionMajor <= 10)%Z ->
  parse_cli_settings PATH_MAX cli_parser os argv p = Returns tt p' ->
  exists a,
    cli_parser argv = Some a /\
    (c_true (ignore_self_flag a) = true ->
     version_at_least (detect os gestaltSystemVersionMajor)
                      (detect os gestaltSystemVersionMinor) 10 6 = true) /\
    (c_true (file_events_flag a) = true ->
     version_at_least (detect os gestaltSystemVersionMajor)
                      (detect os gestaltSystemVersionMinor) 10 7 = true) /\
    flags (config p') =
      flags_with (flags (config p))
                 (c_true (no_defer_flag a)) (c_true (watch_root_flag a))
                 (c_true (ignore_self_flag a)) (c_true (file_events_flag a)).
Proof.
  intros Hmajor H.
  apply parse_cli_settings_returns in H
    as (a & ps & Hcli & _ & Hself & Hfile & _ & ->).
  exists a. rewrite <- !gate_up_to_major_10 by exact Hmajor.
  repeat split; auto.
Qed.

(** ... and a requested flag that the version does not allow ends the
    program with its diagnostic. *)
Lemma ignore_self_denied_below_10_6
  (PATH_MAX : nat) (cli_parser : list string -> option cli_info) (os : host)
  (argv : list string) (a : cli_info) (p : process) :
  (detect os gestaltSystemVersionMajor <= 10)%Z ->
  unavailable (detect os gestaltSystemVersionMajor)
              (detect os gestaltSystemVersionMinor) = false ->
  cli_parser argv = Some a ->
  c_true (ignore_self_flag a) = true ->
  version_at_least (detect os gestaltSystemVersionMajor)
                   (detect os gestaltSystemVersionMinor) 10 6 = false ->
  exists c,
    parse_cli_settings PATH_MAX cli_parser os argv p =
    Exits EXIT_FAILURE
      (flushed (complain ignore_self_diagnostic (set_config c p))).
Proof.
  intros Hmajor Hu Hcli Hreq Hv.
  rewrite <- gate_up_to_major_10 in Hv by exact Hmajor.
  eexists.
  now apply (parse_cli_settings_no_ignore_self PATH_MAX cli_parser os argv a p).
Qed.

Lemma file_events_denied_below_10_7
  (PATH_MAX : nat) (cli_parser : list string -> option cli_info) (os : host)
  (argv : list string) (a : cli_info) (p : process) :
  (detect os gestaltSystemVersionMajor <= 10)%Z ->
  unavailable (detect os gestaltSystemVersionMajor)
              (detect os gestaltSystemVersionMinor) = false ->
  cli_parser argv = Some a ->
  c_true (file_events_flag a) = true ->
  version_at_least (detect os gestaltSystemVersionMajor)
                   (detect os gestaltSystemVersionMinor) 10 7 = false ->
  exists diagnostic c,
    parse_cli_settings PATH_MAX cli_parser os argv p =
    Exits EXIT_FAILURE (flushed (complain diagnostic (set_config c p))) /\
    (diagnostic = ignore_self_diagnostic \/
     diagnostic = file_events_diagnostic).
Proof.
  intros Hmajor Hu Hcli Hreq Hv.
  rewrite <- gate_up_to_major_10 in Hv by exact Hmajor.
  destruct (c_true (ignore_self_flag a)) eqn:Hs;
    [destruct (gate (detect os gestaltSystemVersionMajor)
                    (detect os gestaltSystemVersionMinor) 6) eqn:Hg6|].
  - eexists _, _. split; [|right; reflexivity].
    apply (parse_cli_settings_no_file_events PATH_MAX cli_parser os argv a p);
      auto.
  - eexists _, _. split; [|left; reflexivity].
    now apply (parse_cli_settings_no_ignore_self
                 PATH_MAX cli_parser os argv a p).
  - eexists _, _. split; [|right; reflexivity].
    apply (parse_cli_settings_no_file_events PATH_MAX cli_parser os argv a p);
      auto.
    rewrite Hs. discriminate.
Qed.

(** ** Claims on the version checks and the configured paths *)

(** C1 (the code departs from the claim): on a detected major version above
    10, which is later than 10.6 and than 10.7, a request for
    [--ignore-self] or for [--file-events] is denied: the program prints
    the diagnostic that asks for "10.6 or later" (or "10.7 or later") and
    exits with [EXIT_FAILURE], no native call made. *)
Theorem gated_flag_denied_after_major_10
  (PATH_MAX : nat) (cli_parser : list string -> option cli_info) (os : host)
  (argv : list string) (a : cli_info) (p : process) :
  (10 < detect os gestaltSystemVersionMajor)%Z ->
  cli_parser argv = Some a ->
  c_true (ignore_self_flag a) || c_true (file_events_flag a) = true ->
  version_at_least (detect os gestaltSystemVersionMajor)
                   (detect os gestaltSystemVersionMinor) 10 6 = true /\
  version_at_least (detect os gestaltSystemVersionMajor)
                   (detect os gestaltSystemVersionMinor) 10 7 = true /\
  exists diagnostic c,
    parse_cli_settings PATH_MAX cli_parser os argv p =
      Exits EXIT_FAILURE (flushed (complain diagnostic (set_config c p))) /\
    (diagnostic = ignore_self_diagnostic \/
     diagnostic = file_events_diagnostic) /\
    calls (flushed (complain diagnostic (set_config c p))) = calls p.
Proof.
  intros Hmajor Hcli Hreq.
  set (minor := detect os gestaltSystemVersionMinor).
  destruct (gate_from_major_11 _ minor 6 Hmajor) as [Hg6 Hv6].
  destruct (gate_from_major_11 _ minor 7 Hmajor) as [Hg7 Hv7].
  assert (Hu : unavailable (detect os gestaltSystemVersionMajor) minor = false).
  { unfold unavailable.
    destruct (detect os gestaltSystemVersionMajor =? 10)%Z eqn:He; auto.
    apply Z.eqb_eq in He. lia. }
  repeat split; auto.
  destruct (c_true (ignore_self_flag a)) eqn:Hs.
  - eexists _, _. split; [|split; [left; reflexivity|reflexivity]].
    now apply (parse_cli_settings_no_ignore_self PATH_MAX cli_parser os argv a p).
  - simpl in Hreq.
    eexists _, _. split; [|split; [right; reflexivity|reflexivity]].
    apply (parse_cli_settings_no_file_events PATH_MAX cli_parser os argv a p);
      auto.
    rewrite Hs. discriminate.
Qed.

(** C3 (amended): the program refuses to start, with the diagnostic of the
    unavailable API and [EXIT_FAILURE], before the command line is parsed
    and before any native call, exactly when the detected major version is
    10 and the detected minor version is below 5, a version that could not
    be detected counting as 0. *)
Theorem refuses_to_start_on_10_below_5
  (PATH_MAX : nat)
  (kFSEventWatchOutputFormatClassic kFSEventWatchOutputFormatNIW : Z)
  (cli_parser : list string -> option cli_info) (os : host)
  (argv : list string) (p : process) :
  let major := detect os gestaltSystemVersionMajor in
  let minor := detect os gestaltSystemVersionMinor in
  let refused := flushed (complain unavailable_diagnostic p) in
  (major = 10%Z /\ (minor < 5)%Z <->
   parse_cli_settings PATH_MAX cli_parser os argv p =
   Exits EXIT_FAILURE refused) /\
  (major = 10%Z -> (minor < 5)%Z -> (0 <= setpgid os)%Z ->
   main PATH_MAX kFSEventWatchOutputFormatClassic
        kFSEventWatchOutputFormatNIW cli_parser os argv p =
   Exits EXIT_FAILURE refused) /\
  calls refused = calls p /\ config refused = config p /\
  EXIT_FAILURE <> 0%Z /\
  (Gestalt os gestaltSystemVersionMajor = None -> major = 0%Z) /\
  (Gestalt os gestaltSystemVersionMinor = None -> minor = 0%Z).
Proof.
  intros major minor refused.
  assert (Hrefuse : major = 10%Z -> (minor < 5)%Z ->
                    parse_cli_settings PATH_MAX cli_parser os argv p =
                    Exits EXIT_FAILURE refused).
  { intros HM Hm. apply parse_cli_settings_refuses.
    unfold unavailable. fold major minor. rewrite HM.
    apply Z.ltb_lt in Hm. now rewrite Hm. }
  split; [split|split; [|split; [|split; [|split; [|split]]]]];
    try reflexivity.
  - intros [HM Hm]. auto.
  - intros H.
    destruct (unavailable major minor) eqn:Hu.
    { unfold unavailable in Hu. apply andb_true_iff in Hu as [HM Hm].
      apply Z.eqb_eq in HM. apply Z.ltb_lt in Hm. auto. }
    exfalso. unfold refused in H.
    set (said := fun o : outcome unit =>
                   match o with Exits _ q => stderr q | _ => EmptyString end).
    pose proof (parse_cli_settings_returns PATH_MAX cli_parser os argv p) as Hret.
    destruct (cli_parser argv) as [a|] eqn:Hcli.
    2:{ rewrite parse_cli_settings_usage in H by assumption.
        apply (f_equal said) in H. simpl in H.
        rewrite <- (append_empty_r (stderr p)) in H at 1.
        apply append_inv_head in H. discriminate. }
    destruct (c_true (ignore_self_flag a)) eqn:Hs,
             (gate major minor 6) eqn:Hg6;
      try (rewrite (parse_cli_settings_no_ignore_self
                      PATH_MAX cli_parser os argv a) in H by assumption;
           apply (f_equal said) in H; simpl in H;
           apply append_inv_head in H; discriminate);
      (destruct (c_true (file_events_flag a)) eqn:Hf,
                (gate major minor 7) eqn:Hg7;
       try (rewrite (parse_cli_settings_no_file_events
                       PATH_MAX cli_parser os argv a) in H
              by (auto; intros; congruence);
            apply (f_equal said) in H; simpl in H;
            apply append_inv_head in H; discriminate));
      (rewrite (parse_cli_settings_accepts PATH_MAX cli_parser os argv a) in H
         by (auto; intros; congruence);
       match type of H with
       | for_each ?f ?l ?q = _ =>
           destruct (for_each_append_path_outcome PATH_MAX os l q)
             as [Ho|[p' Ho]]; rewrite Ho in H; discriminate
       end).
  - intros HM Hm Hpg. unfold main.
    apply Z.ltb_ge in Hpg. rewrite Hpg. unfold bind at 1.
    now rewrite Hrefuse.
  - discriminate.
  - unfold major, detect. now intros ->.
  - unfold minor, detect. now intros ->.
Qed.

(** C8: when [parse_cli_settings] returns, [config.paths] is an array that
    is not empty: with no input on the command line it holds one path, the
    resolution of ["."]; otherwise it holds the resolution of every input,
    in the order of the command line. *)
Theorem configured_paths_not_empty
  (PATH_MAX : nat) (cli_parser : list string -> option cli_info) (os : host)
  (argv : list string) (p p' : process) :
  parse_cli_settings PATH_MAX cli_parser os argv p = Returns tt p' ->
  exists a ps,
    cli_parser argv = Some a /\
    paths (config p') = Some ps /\
    ps <> [] /\
    List.length ps = Nat.max 1 (inputs_num a) /\
    (inputs a = [] ->
     exists s, resolved PATH_MAX os "." = Some s /\ ps = [s]) /\
    (inputs a <> [] ->
     Forall2 (fun input s => resolved PATH_MAX os input = Some s)
             (inputs a) ps).
Proof.
  intros H.
  apply parse_cli_settings_returns in H
    as (a & ps & Hcli & _ & _ & _ & Hps & ->).
  exists a, ps. unfold watched_inputs, inputs_num in *.
  split; [exact Hcli|]. split; [reflexivity|].
  destruct (inputs a) as [|x l].
  - inversion Hps as [|? s ? ps' Hs Hnil]; subst.
    inversion Hnil; subst.
    repeat split; try discriminate; eauto. now intros [].
  - pose proof (Forall2_length Hps) as Hlen. simpl in Hlen.
    repeat split; auto; try discriminate.
    intros ->. discriminate.
Qed.

(** ** The watch session *)

Section Session.

Variable PATH_MAX : nat.
Variable kFSEventWatchOutputFormatClassic : Z.
Variable kFSEventWatchOutputFormatNIW : Z.
Variable cli_parser : list string -> option cli_info.
Variable os : host.

(** A delivered batch is printed and flushed; nothing else changes. *)
Lemma deliver_returns (batch : list event) (p : process) :
  exists text,
    deliver kFSEventWatchOutputFormatClassic kFSEventWatchOutputFormatNIW
            batch p =
    Returns tt (flushed (emit text p)).
Proof.
  unfold deliver.
  destruct (Z.eq_dec (format (config p)) kFSEventWatchOutputFormatClassic)
    as [Hc|Hc].
  - exists (classic_text batch). rewrite callback_classic by exact Hc.
    unfold bind. now rewrite classic_output_format_text.
  - destruct (Z.eq_dec (format (config p)) kFSEventWatchOutputFormatNIW)
      as [Hn|Hn].
    + exists (annotated_text batch). rewrite callback_niw by assumption.
      unfold bind. now rewrite niw_output_format_text.
    + exists EmptyString. rewrite callback_other by assumption. now rewrite emit_empty.
Qed.

Lemma for_each_deliver_returns (batches : list (list event)) (p : process) :
  exists p',
    for_each (deliver kFSEventWatchOutputFormatClassic
                      kFSEventWatchOutputFormatNIW) batches p =
    Returns tt p' /\
    calls p' = calls p /\ config p' = config p /\ stderr p' = stderr p.
Proof.
  revert p. induction batches as [|b batches IH]; intros p.
  - exists p. now repeat split.
  - simpl. unfold bind. destruct (deliver_returns b p) as [text ->].
    destruct (IH (flushed (emit text p))) as (p' & -> & Hk & Hc & He).
    exists p'. now repeat split.
Qed.

(** [main] once [parse_cli_settings] has returned and the stream exists:
    the first four calls, the batches of the run loop, and, if the run loop
    returns, the flush, its batches and the stop. *)
Lemma main_watches (argv : list string) (p p1 : process) :
  (0 <= setpgid os)%Z ->
  parse_cli_settings PATH_MAX cli_parser os argv p = Returns tt p1 ->
  stream_created os = true ->
  exists p2,
    calls p2 = (calls p1 ++ firstn 4 (session (config p1)))%list /\
    config p2 = config p1 /\
    (run_loop_returns os = false ->
     main PATH_MAX kFSEventWatchOutputFormatClassic
          kFSEventWatchOutputFormatNIW cli_parser os argv p = Blocked p2) /\
    (run_loop_returns os = true ->
     exists p3,
       main PATH_MAX kFSEventWatchOutputFormatClassic
            kFSEventWatchOutputFormatNIW cli_parser os argv p = Exits 0 p3 /\
       calls p3 = (calls p1 ++ session (config p1))%list /\
       config p3 = config p1).
Proof.
  intros Hpg Hparse Hstream. apply Z.ltb_ge in Hpg.
  remember (main PATH_MAX kFSEventWatchOutputFormatClassic
                 kFSEventWatchOutputFormatNIW cli_parser os argv p)
    as m eqn:Hm.
  unfold main in Hm. rewrite Hpg, Hstream in Hm.
  unfold bind in Hm. rewrite Hparse in Hm.
  unfold get_config, on_stream, native, modify, ret, exit in Hm.
  match type of Hm with
  | context [for_each ?f ?l ?q] =>
      destruct (for_each_deliver_returns l q) as (p2 & Hp2 & Hk & Hc & _);
      rewrite Hp2 in Hm
  end.
  exists p2. simpl in Hk, Hc.
  split; [rewrite Hk, <- !app_assoc; reflexivity|].
  split; [exact Hc|]. split; intros Hrun; rewrite Hrun in Hm.
  - exact Hm.
  - match type of Hm with
    | context [for_each ?f ?l ?q] =>
        destruct (for_each_deliver_returns l q) as (p3 & Hp3 & Hk3 & Hc3 & _);
        rewrite Hp3 in Hm
    end.
    eexists. split; [exact Hm|]. simpl in *.
    rewrite Hk3, Hk, Hc3, Hc, <- !app_assoc. split; reflexivity.
Qed.

End Session.

(** ** Claim on the watch session *)

(** C9: the native calls of a run of [main] are a prefix of create,
    schedule, start, run, flush, stop, in this order and each made once:
    all six when [main] returns 0, none when it exits with another status,
    the first four when the run loop never returns.  When the run loop
    returns, the flush is made and then the stop, and [main] returns 0. *)
Theorem native_calls_in_session_order
  (PATH_MAX : nat)
  (kFSEventWatchOutputFormatClassic kFSEventWatchOutputFormatNIW : Z)
  (cli_parser : list string -> option cli_info) (os : host)
  (argv : list string) (p : process) :
  calls p = [] ->
  let main' :=
    main PATH_MAX kFSEventWatchOutputFormatClassic
         kFSEventWatchOutputFormatNIW cli_parser os argv in
  match main' p with
  | Returns _ _ => False
  | Exits status p' =>
      (status = 0%Z /\ calls p' = session (config p')) \/
      (status <> 0%Z /\ calls p' = [])
  | Blocked p' => calls p' = firstn 4 (session (config p'))
  | Undefined => True
  end /\
  forall p1,
    (0 <= setpgid os)%Z ->
    parse_cli_settings PATH_MAX cli_parser os argv p = Returns tt p1 ->
    stream_created os = true ->
    run_loop_returns os = true ->
    exists p',
      main' p = Exits 0 p' /\
      calls p' = session (config p1) /\
      config p' = config p1.
Proof.
  intros Hk main'. unfold main'. split.
  - destruct (setpgid os <? 0)%Z eqn:Hpg.
    { unfold main. rewrite Hpg. simpl. right. split; [discriminate|exact Hk]. }
    apply Z.ltb_ge in Hpg.
    pose proof (parse_cli_settings_outcome PATH_MAX cli_parser os argv p)
      as Hout.
    destruct (parse_cli_settings PATH_MAX cli_parser os argv p)
      as [[] p1|status p1|p1|] eqn:Hparse.
    + destruct Hout as [Hk1 _]. rewrite Hk in Hk1.
      destruct (stream_created os) eqn:Hstream.
      * destruct (main_watches PATH_MAX kFSEventWatchOutputFormatClassic
                    kFSEventWatchOutputFormatNIW cli_parser os argv p p1
                    Hpg Hparse Hstream)
          as (p2 & Hk2 & Hc2 & Hblocked & Hexits).
        destruct (run_loop_returns os).
        -- destruct (Hexits eq_refl) as (p3 & -> & Hk3 & Hc3).
           left. split; [reflexivity|].
           now rewrite Hk3, Hk1, Hc3.
        -- rewrite (Hblocked eq_refl). now rewrite Hk2, Hk1, Hc2.
      * unfold main. apply Z.ltb_ge in Hpg. rewrite Hpg, Hstream.
        unfold bind at 1. rewrite Hparse. reflexivity.
    + destruct Hout as [-> Hk1].
      unfold main. apply Z.ltb_ge in Hpg. rewrite Hpg.
      unfold bind at 1. rewrite Hparse.
      right. split; [discriminate|congruence].
    + destruct Hout.
    + unfold main. apply Z.ltb_ge in Hpg. rewrite Hpg.
      unfold bind at 1. now rewrite Hparse.
  - intros p1 Hpg Hparse Hstream Hrun.
    destruct (main_watches PATH_MAX kFSEventWatchOutputFormatClassic
                kFSEventWatchOutputFormatNIW cli_parser os argv p p1
                Hpg Hparse Hstream)
      as (p2 & _ & _ & _ & Hexits).
    destruct (Hexits Hrun) as (p3 & Hmain & Hk3 & Hc3).
    exists p3. repeat split; auto.
    pose proof (parse_cli_settings_outcome PATH_MAX cli_parser os argv p)
      as Hout.
    rewrite Hparse in Hout. destruct Hout as [Hk1 _].
    now rewrite Hk3, Hk1, Hk.
Qed.

(** ** Instances on the path resolver *)

Import Examples.

Lemma append_path_overflow_truncates_witness :
  append_path darwin_PATH_MAX lion long_absolute ready =
    Returns tt
      (set_config
         (set_paths (Some [truncate (darwin_PATH_MAX - 1) long_absolute]))
         ready) /\
  String.length (truncate (darwin_PATH_MAX - 1) long_absolute) =
    darwin_PATH_MAX - 1.
Proof.
  apply (append_path_overflow_truncates
           darwin_PATH_MAX lion long_absolute EmptyString [] ready);
    try reflexivity.
  - apply Nat.ltb_lt. reflexivity.
  - apply Nat.leb_le. reflexivity.
Defined.

(** C2, as stated, fails: an absolute input of 1101 bytes that does not exist
    is appended cut to 1023 bytes and [append_path] returns; the process
    does not exit. *)
Lemma append_path_overflow_no_abort :
  is_c_string long_absolute = true /\
  realpath lion long_absolute = None /\
  darwin_PATH_MAX < String.length long_absolute /\
  append_path darwin_PATH_MAX lion long_absolute ready =
    Returns tt
      (set_config (set_paths (Some [truncate 1023 long_absolute])) ready) /\
  String.length (truncate 1023 long_absolute) < String.length long_absolute /\
  forall status p',
    append_path darwin_PATH_MAX lion long_absolute ready <> Exits status p'.
Proof.
  assert (H : append_path darwin_PATH_MAX lion long_absolute ready =
              Returns tt
                (set_config (set_paths (Some [truncate 1023 long_absolute]))
                            ready))
    by (vm_compute; reflexivity).
  repeat split; try (vm_compute; reflexivity); auto.
  - apply Nat.ltb_lt. vm_compute. reflexivity.
  - apply Nat.ltb_lt. vm_compute. reflexivity.
  - intros status p'. rewrite H. discriminate.
Qed.

Lemma absolute_missing_path_unchanged_witness :
  resolved darwin_PATH_MAX lion "/tmp/new" = Some "/tmp/new" /\
  forall (p : process) (a : list string),
    paths (config p) = Some a ->
    append_path darwin_PATH_MAX lion "/tmp/new" p =
    Returns tt (set_config (set_paths (Some (a ++ ["/tmp/new"])%list)) p).
Proof.
  apply (absolute_missing_path_unchanged darwin_PATH_MAX lion "/tmp/new");
    try reflexivity.
  apply Nat.ltb_lt. reflexivity.
Defined.

(** C4, as stated, fails: an absolute input of 1101 bytes that does not
    exist is not resolved to itself but to its first 1023 bytes. *)
Lemma long_absolute_path_changed :
  is_c_string long_absolute = true /\
  first_char long_absolute = "/"%char /\
  realpath lion long_absolute = None /\
  resolved darwin_PATH_MAX lion long_absolute =
    Some (truncate 1023 long_absolute) /\
  resolved darwin_PATH_MAX lion long_absolute <> Some long_absolute.
Proof.
  repeat split; try (vm_compute; reflexivity).
  intros H. apply (f_equal (option_map String.length)) in H.
  vm_compute in H. discriminate H.
Qed.

Lemma relative_missing_path_concatenated_witness :
  resolved darwin_PATH_MAX lion "new/file" = Some "/home/me/new/file" /\
  forall (p : process) (a : list string),
    paths (config p) = Some a ->
    append_path darwin_PATH_MAX lion "new/file" p =
    Returns tt
      (set_config (set_paths (Some (a ++ ["/home/me/new/file"])%list)) p).
Proof.
  apply (relative_missing_path_concatenated
           darwin_PATH_MAX lion "new/file" "/home/me");
    try reflexivity.
  - discriminate.
  - apply Nat.ltb_lt. reflexivity.
Defined.

(** C5, as stated, fails: a relative input of 1100 bytes that does not exist
    is not resolved to the working directory, a slash and the input, but to
    the first 1023 bytes of that. *)
Lemma long_relative_path_cut :
  is_c_string long_relative = true /\
  first_char long_relative <> "/"%char /\
  realpath lion long_relative = None /\
  cwd lion = Some "/home/me" /\
  resolved darwin_PATH_MAX lion long_relative =
    Some ("/home/me/" ++ truncate 1014 long_relative) /\
  resolved darwin_PATH_MAX lion long_relative <>
    Some ("/home/me" ++ "/" ++ long_relative).
Proof.
  repeat split; try (vm_compute; reflexivity).
  - discriminate.
  - intros H. apply (f_equal (option_map String.length)) in H.
    vm_compute in H. discriminate H.
Qed.

(** The cut of an over-long input can fall inside a character: with an
    array of 6 bytes the input ["/caf"] followed by the two bytes of U+00E9
    is well-formed UTF-8, but only its first 5 bytes are kept, the last of
    which is the lead byte alone; CoreFoundation returns NULL for them and
    the append that follows is undefined. *)
Lemma cut_inside_a_character :
  well_formed_utf8 cafe = true /\
  String.length cafe = 6 /\
  resolved_bytes 6 lion cafe = Some (truncate 5 cafe) /\
  decodes lion (truncate 5 cafe) = false /\
  append_path 6 lion cafe ready = Undefined.
Proof. repeat split. Qed.

(** ** Instances on the formatter, the version checks and the session *)

Lemma gated_flag_denied_after_major_10_witness :
  version_at_least 11 0 10 6 = true /\
  version_at_least 11 0 10 7 = true /\
  exists diagnostic c,
    parse_cli_settings darwin_PATH_MAX
      (parsed (arguments classic_value 1 0 [])) big_sur []
      (process_start classic_value) =
      Exits EXIT_FAILURE
        (flushed (complain diagnostic
                    (set_config c (process_start classic_value)))) /\
    (diagnostic = ignore_self_diagnostic \/
     diagnostic = file_events_diagnostic) /\
    calls (flushed (complain diagnostic
                      (set_config c (process_start classic_value)))) = [].
Proof.
  apply (gated_flag_denied_after_major_10
           darwin_PATH_MAX (parsed (arguments classic_value 1 0 [])) big_sur
           [] (arguments classic_value 1 0 [])
           (process_start classic_value));
    reflexivity.
Defined.

(** On macOS 11.0, [--ignore-self] alone on the command line: the program
    asks for "10.6 or later" and exits with status 1, no stream created. *)
Lemma big_sur_denies_ignore_self :
  detect big_sur gestaltSystemVersionMajor = 11%Z /\
  detect big_sur gestaltSystemVersionMinor = 0%Z /\
  main darwin_PATH_MAX classic_value niw_value
       (parsed (arguments classic_value 1 0 [])) big_sur []
       (process_start classic_value) =
  Exits 1
    (mk_process
       (mk_config kFSEventStreamEventIdSinceNow (3 # 10) 0 (Some []) 0)
       (mk_FILE EmptyString EmptyString)
       ("MacOSX 10.6 or later is required for --ignore-self" ++ LF)
       []).
Proof. repeat split. Qed.

(** On macOS 11.0, [--file-events] alone on the command line: the program
    asks for "10.7 or later" and exits with status 1, no stream created. *)
Lemma big_sur_denies_file_events :
  main darwin_PATH_MAX classic_value niw_value
       (parsed (arguments classic_value 0 1 [])) big_sur []
       (process_start classic_value) =
  Exits 1
    (mk_process
       (mk_config kFSEventStreamEventIdSinceNow (3 # 10) 0 (Some []) 0)
       (mk_FILE EmptyString EmptyString)
       ("MacOSX 10.7 or later required for --file-events" ++ LF)
       []).
Proof. reflexivity. Qed.

Lemma refuses_to_start_on_10_below_5_witness :
  main darwin_PATH_MAX classic_value niw_value
       (parsed (arguments classic_value 0 0 [])) tiger []
       (process_start classic_value) =
  Exits EXIT_FAILURE
    (flushed (complain unavailable_diagnostic (process_start classic_value))).
Proof.
  destruct (refuses_to_start_on_10_below_5
              darwin_PATH_MAX classic_value niw_value
              (parsed (arguments classic_value 0 0 [])) tiger []
              (process_start classic_value))
    as (_ & Hmain & _).
  apply Hmain; [reflexivity|reflexivity|discriminate].
Defined.

(** C3, as stated, fails: when [Gestalt] fails the version is 0.0, which is
    below 10.5, and the program starts all the same: it resolves the
    working directory, creates the stream, runs it and returns 0. *)
Lemma undetected_version_starts :
  Gestalt undetected gestaltSystemVersionMajor = None /\
  Gestalt undetected gestaltSystemVersionMinor = None /\
  detect undetected gestaltSystemVersionMajor = 0%Z /\
  detect undetected gestaltSystemVersionMinor = 0%Z /\
  version_at_least 0 0 10 5 = false /\
  main darwin_PATH_MAX classic_value niw_value
       (parsed (arguments classic_value 0 0 [])) undetected []
       (process_start classic_value) =
  Exits 0
    (mk_process
       (mk_config kFSEventStreamEventIdSinceNow (3 # 10) 0
                  (Some ["/home/me"]) 0)
       (mk_FILE EmptyString ("/tmp/a:/tmp/b:" ++ LF))
       EmptyString
       [ FSEventStreamCreate (Some ["/home/me"]) kFSEventStreamEventIdSinceNow
                             (3 # 10) 0;
         FSEventStreamScheduleWithRunLoop; FSEventStreamStart; CFRunLoopRun;
         FSEventStreamFlushSync; FSEventStreamStop ]).
Proof. repeat split. Qed.

Lemma classic_format_output_witness :
  classic_output_format 2 ["/tmp/a"; "/tmp/b"] (formatting classic_value) =
    Returns tt
      (mk_process (config (formatting classic_value))
                  (mk_FILE ("/tmp/a:/tmp/b:" ++ LF) EmptyString)
                  EmptyString []) /\
  callback classic_value niw_value 2 ["/tmp/a"; "/tmp/b"] [7%N] []
           (formatting classic_value) =
    Returns tt
      (mk_process (config (formatting classic_value))
                  (mk_FILE EmptyString ("/tmp/a:/tmp/b:" ++ LF))
                  EmptyString []) /\
  join (map (fun e => ev_path e ++ ":")
            [mk_event "/tmp/a" 0 1; mk_event "/tmp/b" 0 2]) ++ LF =
    "/tmp/a:/tmp/b:" ++ LF.
Proof.
  apply (classic_format_output classic_value niw_value batch_ab [7%N] []
                               (formatting classic_value)).
  reflexivity.
Defined.

Lemma annotated_format_output_witness :
  deliver classic_value niw_value batch_ab (formatting niw_value) =
  Returns tt
    (mk_process (config (formatting niw_value))
                (mk_FILE EmptyString
                         ("0:1:/tmp/a" ++ LF ++ "0:2:/tmp/b" ++ LF ++ LF))
                EmptyString []).
Proof.
  destruct (annotated_format_output classic_value niw_value batch_ab
                                    (formatting niw_value))
    as (_ & _ & Hdeliver & _); [discriminate|reflexivity|].
  exact Hdeliver.
Defined.

Lemma empty_batch_output_witness :
  callback classic_value niw_value 0 [] [] [] (formatting classic_value) =
    Returns tt (flushed (emit LF (formatting classic_value))) /\
  callback classic_value niw_value 0 [] [] [] (formatting niw_value) =
    Returns tt (flushed (emit LF (formatting niw_value))) /\
  callback classic_value niw_value 2 ["/tmp/a"; "/tmp/b"] [0%N; 0%N]
           [1%N; 2%N] (formatting 2) =
    Returns tt (flushed (formatting 2)).
Proof.
  assert (Hd : classic_value <> niw_value) by discriminate.
  split; [|split].
  - destruct (empty_batch_output classic_value niw_value [] [] []
                                 (formatting classic_value) Hd)
      as (Hclassic & _).
    now apply Hclassic.
  - destruct (empty_batch_output classic_value niw_value [] [] []
                                 (formatting niw_value) Hd)
      as (_ & Hniw & _).
    now apply Hniw.
  - destruct (empty_batch_output classic_value niw_value
                ["/tmp/a"; "/tmp/b"] [0%N; 0%N] [1%N; 2%N] (formatting 2) Hd)
      as (_ & _ & Hother & _).
    apply Hother; discriminate.
Defined.

Lemma configured_paths_not_empty_witness :
  exists a ps,
    parsed (arguments classic_value 0 0 []) [] = Some a /\
    paths (config (set_config (set_paths (Some ["/home/me"]))
                              (formatting classic_value))) = Some ps /\
    ps <> [] /\
    List.length ps = Nat.max 1 (inputs_num a) /\
    (inputs a = [] ->
     exists s, resolved darwin_PATH_MAX lion "." = Some s /\ ps = [s]) /\
    (inputs a <> [] ->
     Forall2 (fun input s => resolved darwin_PATH_MAX lion input = Some s)
             (inputs a) ps).
Proof.
  apply (configured_paths_not_empty
           darwin_PATH_MAX (parsed (arguments classic_value 0 0 [])) lion []
           (process_start classic_value)).
  reflexivity.
Defined.

Lemma native_calls_in_session_order_witness :
  exists p',
    main darwin_PATH_MAX classic_value niw_value
         (parsed (arguments classic_value 0 0 ["/tmp"; "src"])) lion []
         (process_start classic_value) = Exits 0 p' /\
    calls p' =
      session (mk_config kFSEventStreamEventIdSinceNow (3 # 10) 0
                         (Some ["/tmp"; "/home/me/src"]) classic_value) /\
    config p' =
      mk_config kFSEventStreamEventIdSinceNow (3 # 10) 0
                (Some ["/tmp"; "/home/me/src"]) classic_value.
Proof.
  destruct (native_calls_in_session_order
              darwin_PATH_MAX classic_value niw_value
              (parsed (arguments classic_value 0 0 ["/tmp"; "src"])) lion []
              (process_start classic_value) eq_refl)
    as [_ Hruns].
  apply (Hruns (mk_process
                  (mk_config kFSEventStreamEventIdSinceNow (3 # 10) 0
                             (Some ["/tmp"; "/home/me/src"]) classic_value)
                  (mk_FILE EmptyString EmptyString) EmptyString []));
    [discriminate|reflexivity|reflexivity|reflexivity].
Defined.

(** ** The formatters on arbitrary arrays *)

(** The loops only look at the part of the arrays that starts at their
    index. *)
Lemma classic_output_format_loop_shift (n i : nat) (x : string)
  (paths : list string) (p : process) :
  classic_output_format_loop n (S i) (x :: paths) p =
  classic_output_format_loop n i paths p.
Proof.
  revert i p. induction n as [|n IH]; intros i p; [reflexivity|].
  simpl. unfold bind.
  destruct (nth_error paths i) as [y|]; simpl; [|reflexivity].
  apply IH.
Qed.

Lemma niw_output_format_loop_shift (n i : nat) (x : string) (f d : N)
  (paths : list string) (fl ids : list N) (p : process) :
  niw_output_format_loop n (S i) (x :: paths) (f :: fl) (d :: ids) p =
  niw_output_format_loop n i paths fl ids p.
Proof.
  revert i p. induction n as [|n IH]; intros i p; [reflexivity|].
  simpl. unfold bind.
  destruct (nth_error fl i) as [f'|]; simpl; [|reflexivity].
  destruct (nth_error ids i) as [d'|]; simpl; [|reflexivity].
  destruct (nth_error paths i) as [y|]; simpl; [|reflexivity].
  apply IH.
Qed.

Lemma classic_output_format_loop_bounds (n : nat) (paths : list string)
  (p : process) :
  classic_output_format_loop n 0 paths p =
  if (n <=? List.length paths)%nat
  then Returns tt (emit (join (map (fun s => s ++ ":") (firstn n paths))) p)
  else Undefined.
Proof.
  revert paths p. induction n as [|n IH]; intros paths p.
  - simpl. now rewrite emit_empty.
  - destruct paths as [|x paths]; [reflexivity|].
    simpl classic_output_format_loop. unfold bind at 1. simpl.
    unfold bind at 1, fprintf_stdout at 1, modify at 1.
    rewrite classic_output_format_loop_shift, IH.
    change (S n <=? List.length (x :: paths))%nat
      with (n <=? List.length paths)%nat.
    destruct (n <=? List.length paths)%nat; [|reflexivity].
    rewrite emit_emit. reflexivity.
Qed.

Lemma niw_output_format_loop_bounds (n : nat) (paths : list string)
  (fl ids : list N) (p : process) :
  niw_output_format_loop n 0 paths fl ids p =
  if (n <=? List.length (combine paths (combine fl ids)))%nat
  then Returns tt
         (emit (join (firstn n (annotated_records paths fl ids))) p)
  else Undefined.
Proof.
  revert paths fl ids p. induction n as [|n IH]; intros paths fl ids p.
  - simpl. now rewrite emit_empty.
  - simpl niw_output_format_loop. unfold bind at 1.
    destruct fl as [|f fl]; simpl.
    { destruct paths; reflexivity. }
    unfold bind at 1.
    destruct ids as [|d ids]; simpl.
    { destruct paths; reflexivity. }
    unfold bind at 1.
    destruct paths as [|x paths]; simpl; [reflexivity|].
    unfold bind at 1, fprintf_stdout at 1, modify at 1.
    rewrite niw_output_format_loop_shift, IH.
    destruct (n <=? List.length (combine paths (combine fl ids)))%nat;
      [|reflexivity].
    rewrite emit_emit. reflexivity.
Qed.

Lemma classic_output_format_prints (n : nat) (paths : list string)
  (p : process) :
  classic_output_format n paths p =
  if (n <=? List.length paths)%nat
  then Returns tt
         (emit (join (map (fun s => s ++ ":") (firstn n paths)) ++ LF) p)
  else Undefined.
Proof.
  unfold classic_output_format, bind.
  rewrite classic_output_format_loop_bounds.
  destruct (n <=? List.length paths)%nat; [|reflexivity].
  unfold fprintf_stdout, modify. now rewrite emit_emit.
Qed.

Lemma niw_output_format_prints (n : nat) (paths : list string)
  (fl ids : list N) (p : process) :
  niw_output_format n paths fl ids p =
  if (n <=?
      Nat.min (List.length paths)
              (Nat.min (List.length fl) (List.length ids)))%nat
  then Returns tt
         (emit (join (firstn n (annotated_records paths fl ids)) ++ LF) p)
  else Undefined.
Proof.
  unfold niw_output_format, bind.
  rewrite niw_output_format_loop_bounds, !length_combine.
  destruct (n <=? _)%nat; [|reflexivity].
  unfold fprintf_stdout, modify. now rewrite emit_emit.
Qed.

(** X1: the classic formatter queues on [stdout], after what is queued
    there, the first [numEvents] paths of its array, each followed by a
    colon, and a line feed, and changes nothing else; it reads past the
    array, which C leaves undefined, exactly when [numEvents] exceeds the
    size of the array. *)
Theorem classic_output_format_bounds (numEvents : nat) (paths : list string)
  (p : process) :
  classic_output_format numEvents paths p =
  if (numEvents <=? List.length paths)%nat
  then Returns tt
         (mk_process
            (config p)
            (mk_FILE (buffered (stdout p) ++
                      join (map (fun s => s ++ ":") (firstn numEvents paths))
                      ++ LF)
                     (written (stdout p)))
            (stderr p) (calls p))
  else Undefined.
Proof.
  rewrite classic_output_format_prints.
  destruct (numEvents <=? List.length paths)%nat; reflexivity.
Qed.

(** X2: the annotated formatter queues on [stdout], after what is queued
    there, one line for each of the first [numEvents] indices, made of the
    flags in decimal, a colon, the id in decimal, a colon and the path found
    at that index of the three arrays, and an empty line, and changes
    nothing else; its behaviour is undefined exactly when [numEvents]
    exceeds the size of the shortest of the three arrays. *)
Theorem niw_output_format_bounds (numEvents : nat) (paths : list string)
  (eventFlags eventIds : list N) (p : process) :
  niw_output_format numEvents paths eventFlags eventIds p =
  if (numEvents <=?
      Nat.min (List.length paths)
              (Nat.min (List.length eventFlags) (List.length eventIds)))%nat
  then Returns tt
         (mk_process
            (config p)
            (mk_FILE (buffered (stdout p) ++
                      join (firstn numEvents
                              (map (fun r => decimal (fst (snd r)) ++ ":"
                                             ++ decimal (snd (snd r)) ++ ":"
                                             ++ fst r ++ LF)
                                   (combine paths
                                            (combine eventFlags eventIds))))
                      ++ LF)
                     (written (stdout p)))
            (stderr p) (calls p))
  else Undefined.
Proof.
  rewrite niw_output_format_prints.
  destruct (numEvents <=? _)%nat; reflexivity.
Qed.

(** X3: whatever the batch, the callback never ends the process.  Where
    the formatter of [config.format] stays inside its arrays, the callback
    returns with [config], [stderr] and the native calls as before, nothing
    queued on [stdout], and on [stdout] what it had received or queued
    before followed by the text of the batch in that format (nothing for a
    format that is neither enumerator); elsewhere it is undefined. *)
Theorem callback_only_prints
  (kFSEventWatchOutputFormatClassic kFSEventWatchOutputFormatNIW : Z)
  (numEvents : nat) (eventPaths : list string) (eventFlags eventIds : list N)
  (p : process) :
  let classic := (format (config p) =? kFSEventWatchOutputFormatClassic)%Z in
  let niw := (format (config p) =? kFSEventWatchOutputFormatNIW)%Z in
  let text :=
    if classic then
      join (map (fun s => s ++ ":") (firstn numEvents eventPaths)) ++ LF
    else if niw then
      join (firstn numEvents
              (map (fun r => decimal (fst (snd r)) ++ ":"
                             ++ decimal (snd (snd r)) ++ ":" ++ fst r ++ LF)
                   (combine eventPaths (combine eventFlags eventIds))))
      ++ LF
    else EmptyString in
  let inside :=
    if classic then (numEvents <=? List.length eventPaths)%nat
    else if niw then
      (numEvents <=?
       Nat.min (List.length eventPaths)
               (Nat.min (List.length eventFlags) (List.length eventIds)))%nat
    else true in
  callback kFSEventWatchOutputFormatClassic kFSEventWatchOutputFormatNIW
           numEvents eventPaths eventFlags eventIds p =
  if inside
  then Returns tt
         (mk_process
            (config p)
            (mk_FILE EmptyString
                     (written (stdout p) ++ buffered (stdout p) ++ text))
            (stderr p) (calls p))
  else Undefined.
Proof.
  cbv zeta.
  destruct (format (config p) =? kFSEventWatchOutputFormatClassic)%Z eqn:Hc.
  - apply Z.eqb_eq in Hc. rewrite callback_classic by exact Hc.
    unfold bind. rewrite classic_output_format_prints.
    destruct (numEvents <=? List.length eventPaths)%nat; reflexivity.
  - apply Z.eqb_neq in Hc.
    destruct (format (config p) =? kFSEventWatchOutputFormatNIW)%Z eqn:Hn.
    + apply Z.eqb_eq in Hn. rewrite callback_niw; [|exact Hc|exact Hn].
      unfold bind. rewrite niw_output_format_prints.
      destruct (numEvents <=? _)%nat; reflexivity.
    + apply Z.eqb_neq in Hn. rewrite callback_other by assumption.
      unfold flushed, flush. simpl. now rewrite append_empty_r.
Qed.

(** ** What the printed text tells its reader *)

Lemma occurs_app (c : ascii) (s t : string) :
  occurs c (s ++ t) = occurs c s || occurs c t.
Proof.
  induction s as [|x s IH]; simpl; auto. now rewrite IH, orb_assoc.
Qed.

(** Cutting a text at the first occurrence of a byte. *)
Lemma cut_at_first (c : ascii) (s1 s2 r1 r2 : string) :
  occurs c s1 = false ->
  occurs c s2 = false ->
  s1 ++ String c r1 = s2 ++ String c r2 ->
  s1 = s2 /\ r1 = r2.
Proof.
  revert s2. induction s1 as [|x s1 IH]; intros [|y s2] H1 H2 H; simpl in *.
  - injection H as <-. auto.
  - injection H as <- _. rewrite Ascii.eqb_refl in H2. discriminate.
  - injection H as -> _. rewrite Ascii.eqb_refl in H1. discriminate.
  - injection H as <- H.
    apply orb_false_iff in H1 as [_ H1]. apply orb_false_iff in H2 as [_ H2].
    destruct (IH s2 H1 H2 H) as [-> ->]. auto.
Qed.

(** [decimal] prints digits only. *)
Lemma decimal_digits (c : ascii) (n : N) :
  occurs c (decimal n) = true ->
  In c ["0"; "1"; "2"; "3"; "4"; "5"; "6"; "7"; "8"; "9"]%char.
Proof.
  unfold decimal. generalize (N.to_uint n). intros d.
  induction d as [|d IH|d IH|d IH|d IH|d IH|d IH|d IH|d IH|d IH|d IH];
    cbn [NilEmpty.string_of_uint occurs]; [discriminate|..];
    (intros H; apply orb_true_iff in H as [H|H];
     [apply Ascii.eqb_eq in H; subst; simpl; tauto|auto]).
Qed.

Lemma decimal_no_colon (n : N) : occurs ":"%char (decimal n) = false.
Proof.
  destruct (occurs ":"%char (decimal n)) eqn:H; auto.
  apply decimal_digits in H. simpl in H.
  repeat (destruct H as [H|H]; [discriminate|]). destruct H.
Qed.

Lemma decimal_injective (m n : N) : decimal m = decimal n -> m = n.
Proof.
  intros H. pose proof (decimal_reads_back m) as Hm.
  rewrite H, decimal_reads_back in Hm. now injection Hm.
Qed.

Lemma join_app (l1 l2 : list string) : join (l1 ++ l2) = join l1 ++ join l2.
Proof.
  induction l1 as [|s l1 IH]; simpl; auto. now rewrite IH, append_assoc.
Qed.

(** The text of a batch in each format, record by record. *)
Lemma annotated_text_cons (e : event) (batch : list event) :
  annotated_text (e :: batch) =
  decimal (ev_flags e) ++
  String ":" (decimal (ev_id e) ++
              String ":" (ev_path e ++ String "010" (annotated_text batch))).
Proof.
  unfold annotated_text. simpl.
  rewrite !append_assoc. simpl. do 2 f_equal.
  rewrite !append_assoc. simpl. do 2 f_equal.
  rewrite !append_assoc. reflexivity.
Qed.

Lemma classic_text_cons (e : event) (batch : list event) :
  classic_text (e :: batch) = ev_path e ++ String ":" (classic_text batch).
Proof. unfold classic_text. simpl. now rewrite !append_assoc. Qed.

(** The annotated text of a batch determines the batch, as long as no path
    holds a line feed. *)
Lemma annotated_text_determines (batch1 batch2 : list event) :
  (forall e, In e batch1 -> occurs "010"%char (ev_path e) = false) ->
  (forall e, In e batch2 -> occurs "010"%char (ev_path e) = false) ->
  annotated_text batch1 = annotated_text batch2 ->
  batch1 = batch2.
Proof.
  revert batch2.
  induction batch1 as [|e1 batch1 IH]; intros [|e2 batch2] H1 H2 H.
  - reflexivity.
  - exfalso. rewrite annotated_text_cons in H.
    apply (f_equal (occurs ":"%char)) in H.
    rewrite occurs_app in H. simpl in H.
    now rewrite orb_true_r in H.
  - exfalso. rewrite annotated_text_cons in H.
    apply (f_equal (occurs ":"%char)) in H.
    rewrite occurs_app in H. simpl in H.
    now rewrite orb_true_r in H.
  - rewrite !annotated_text_cons in H.
    apply cut_at_first in H as [Hf H]; try apply decimal_no_colon.
    apply cut_at_first in H as [Hi H]; try apply decimal_no_colon.
    apply cut_at_first in H as [Hp H];
      [|apply H1; now left|apply H2; now left].
    apply decimal_injective in Hf, Hi.
    destruct e1 as [p1 f1 i1], e2 as [p2 f2 i2]. simpl in *. subst.
    f_equal. apply IH; auto.
Qed.

(** The classic text of a batch determines its paths, as long as no path
    holds a colon. *)
Lemma classic_text_determines (batch1 batch2 : list event) :
  (forall e, In e batch1 -> occurs ":"%char (ev_path e) = false) ->
  (forall e, In e batch2 -> occurs ":"%char (ev_path e) = false) ->
  classic_text batch1 = classic_text batch2 ->
  map ev_path batch1 = map ev_path batch2.
Proof.
  revert batch2.
  induction batch1 as [|e1 batch1 IH]; intros [|e2 batch2] H1 H2 H.
  - reflexivity.
  - exfalso. rewrite classic_text_cons in H.
    apply (f_equal (occurs ":"%char)) in H.
    rewrite occurs_app in H. simpl in H.
    now rewrite orb_true_r in H.
  - exfalso. rewrite classic_text_cons in H.
    apply (f_equal (occurs ":"%char)) in H.
    rewrite occurs_app in H. simpl in H.
    now rewrite orb_true_r in H.
  - rewrite !classic_text_cons in H.
    apply cut_at_first in H as [Hp H];
      [|apply H1; now left|apply H2; now left].
    simpl. rewrite Hp. f_equal. apply IH; auto.
    + intros e He. apply H1. now right.
    + intros e He. apply H2. now right.
Qed.

(** A path [p:q] gives the text of the two paths [p] and [q]. *)
Lemma classic_text_collision
  (before after : list event) (p q : string) (f f1 f2 i i1 i2 : N) :
  classic_text (before ++ mk_event (p ++ ":" ++ q) f i :: after) =
  classic_text (before ++ mk_event p f1 i1 :: mk_event q f2 i2 :: after).
Proof.
  unfold classic_text. rewrite !map_app, !join_app. simpl.
  rewrite !append_assoc. reflexivity.
Qed.

(** ** The path resolver on every input *)

Lemma c_str_is_c_string (b : list ascii) (s : string) :
  c_str b = Some s -> is_c_string s = true.
Proof.
  revert s. induction b as [|c b IH]; simpl; intros s H; [discriminate|].
  destruct (Ascii.eqb c NUL) eqn:Hc.
  - now injection H as <-.
  - destruct (c_str b) as [t|]; [|discriminate].
    injection H as <-. simpl. now rewrite Hc, (IH t).
Qed.

Lemma first_char_truncate (n : nat) (s : string) :
  first_char (truncate (S n) s) = first_char s.
Proof. now destruct s. Qed.

Lemma first_char_append (s t : string) :
  s <> EmptyString -> first_char (s ++ t) = first_char s.
Proof. destruct s; [congruence|reflexivity]. Qed.

Section EveryInput.

Variable PATH_MAX : nat.
Variable os : host.

(** Where [realpath] gives nothing that fits, the resolution is that of
    the host on which nothing exists. *)
Lemma resolved_fallback (path : string) :
  realpath_into PATH_MAX os path (uninitialised PATH_MAX os) = None ->
  resolved_bytes PATH_MAX os path =
  resolved_bytes PATH_MAX (nothing_exists os) path.
Proof.
  intros H. unfold resolved_bytes, resolve. rewrite H. reflexivity.
Qed.

Lemma resolved_without_cwd (path : string) :
  realpath os path = None ->
  first_char path <> "/"%char ->
  (forall d, cwd os = Some d -> PATH_MAX <= String.length d) ->
  resolved_bytes PATH_MAX os path = None.
Proof.
  intros Hr Hf Hd. unfold resolved_bytes, resolve.
  rewrite (realpath_into_none PATH_MAX os path _ Hr).
  apply Ascii.eqb_neq in Hf. rewrite Hf. simpl.
  unfold getcwd. destruct (cwd os) as [d|]; [|reflexivity].
  specialize (Hd d eq_refl).
  destruct (String.length d <? PATH_MAX)%nat eqn:Hlt; [|reflexivity].
  apply Nat.ltb_lt in Hlt. lia.
Qed.

Lemma append_path_unresolved (path : string) (p : process) :
  resolved PATH_MAX os path = None ->
  append_path PATH_MAX os path p = Undefined.
Proof.
  unfold resolved, append_path, bind, defined, ret, undefined,
    CFArrayAppendValue.
  destruct (resolve PATH_MAX os path) as [b|]; [|reflexivity].
  destruct (CFStringCreateWithCString os b) as [[s|]|];
    [discriminate|reflexivity|reflexivity].
Qed.

End EveryInput.

(** X7: an input that [realpath] resolves to bytes CoreFoundation decodes
    as UTF-8 is appended as [realpath] answers it, be the input relative or
    absolute; the working directory is not asked for. *)
Theorem append_path_existing
  (PATH_MAX : nat) (os : host) (path r : string) (a : list string)
  (p : process) :
  realpath os path = Some r ->
  is_c_string r = true ->
  String.length r < PATH_MAX ->
  decodes os r = true ->
  paths (config p) = Some a ->
  append_path PATH_MAX os path p =
    Returns tt (set_config (set_paths (Some (a ++ [r])%list)) p) /\
  forall d,
    append_path PATH_MAX
      (mk_host (setpgid os) (Gestalt os) (realpath os) d (indeterminate os)
               (decodes os) (stream_created os) (delivered os)
               (run_loop_returns os) (pending os)) path p =
    append_path PATH_MAX os path p.
Proof.
  intros Hr Hc Hlen Hutf Hp.
  assert (H : forall os', realpath os' path = Some r ->
                          decodes os' r = true ->
                          append_path PATH_MAX os' path p =
                          Returns tt
                            (set_config (set_paths (Some (a ++ [r])%list)) p)).
  { intros os' Hr' Hutf'. apply append_path_resolved; auto.
    apply resolved_decoded. split; [|exact Hutf'].
    now apply resolved_canonical. }
  split; [now apply H|].
  intros d. rewrite (H os Hr Hutf). now apply H.
Qed.

(** Every path the resolver produces is a C string of fewer than
    [PATH_MAX] bytes. *)
Lemma resolved_bounded
  (PATH_MAX : nat) (os : host) (path s : string) :
  resolved PATH_MAX os path = Some s ->
  is_c_string s = true /\ String.length s < PATH_MAX.
Proof.
  intros Hs. apply resolved_decoded in Hs as [Hs _].
  unfold resolved_bytes in Hs.
  destruct (resolve PATH_MAX os path) as [b|] eqn:Hb; [|discriminate].
  split.
  - now apply (c_str_is_c_string b).
  - apply length_resolve in Hb. apply c_str_length in Hs. lia.
Qed.

(** On a host whose [realpath] and [getcwd] answer absolute paths, every
    path the resolver produces is absolute. *)
Lemma resolved_is_absolute
  (PATH_MAX : nat) (os : host) (path s : string) :
  (forall q r, realpath os q = Some r ->
               is_c_string r = true /\ first_char r = "/"%char) ->
  (forall d, cwd os = Some d ->
             is_c_string d = true /\ first_char d = "/"%char) ->
  2 <= PATH_MAX ->
  is_c_string path = true ->
  resolved PATH_MAX os path = Some s ->
  first_char s = "/"%char.
Proof.
  intros Hreal Hcwd Hmax Hc Hs. apply resolved_decoded in Hs as [Hs _].
  destruct (realpath_into PATH_MAX os path (uninitialised PATH_MAX os))
    as [b|] eqn:Hinto.
  - unfold realpath_into in Hinto.
    destruct (realpath os path) as [r|] eqn:Hr; [|discriminate].
    destruct (String.length r <? PATH_MAX)%nat eqn:Hlen; [|discriminate].
    apply Nat.ltb_lt in Hlen. destruct (Hreal path r Hr) as [Hcr Hfr].
    rewrite (resolved_canonical PATH_MAX os path r Hr Hcr Hlen) in Hs.
    now injection Hs as <-.
  - rewrite (resolved_fallback PATH_MAX os path Hinto) in Hs.
    set (os' := nothing_exists os) in *.
    assert (Hr : realpath os' path = None) by reflexivity.
    destruct (Ascii.eqb (first_char path) "/"%char) eqn:Hf.
    + apply Ascii.eqb_eq in Hf.
      rewrite (resolved_absolute PATH_MAX os' path Hc Hf Hr) in Hs by lia.
      injection Hs as <-.
      replace (PATH_MAX - 1) with (S (PATH_MAX - 2)) by lia.
      now rewrite first_char_truncate.
    + apply Ascii.eqb_neq in Hf.
      destruct (cwd os) as [d|] eqn:Hd.
      2:{ rewrite (resolved_without_cwd PATH_MAX os' path Hr Hf) in Hs;
            [discriminate|].
          intros d Hd'. unfold os' in Hd'. simpl in Hd'. congruence. }
      destruct (Hcwd d eq_refl) as [Hcd Hfd].
      assert (Hd' : cwd os' = Some d) by exact Hd.
      destruct (Nat.lt_trichotomy (String.length d + 1) PATH_MAX)
        as [Hlt|[Heq|Hgt]].
      * rewrite (resolved_relative PATH_MAX os' path d Hc Hcd Hf Hr Hd' Hlt)
          in Hs.
        injection Hs as <-. rewrite first_char_append; auto.
        intros ->. discriminate.
      * rewrite (resolved_unterminated PATH_MAX os' path d Hcd Hf Hr Hd' Heq)
          in Hs.
        discriminate.
      * rewrite (resolved_without_cwd PATH_MAX os' path Hr Hf) in Hs;
          [discriminate|].
        intros d0 Hd0. rewrite Hd' in Hd0. injection Hd0 as <-. lia.
Qed.

(** X8: when [append_path] returns it has appended one path to
    [config.paths], a C string of fewer than [PATH_MAX] bytes, and changed
    nothing else in the process. *)
Theorem append_path_appends_one_bounded_path
  (PATH_MAX : nat) (os : host) (path : string) (p p' : process) :
  append_path PATH_MAX os path p = Returns tt p' ->
  exists a s,
    paths (config p) = Some a /\
    p' = set_config (set_paths (Some (a ++ [s])%list)) p /\
    is_c_string s = true /\
    String.length s < PATH_MAX.
Proof.
  intros H. apply append_path_returns in H as (s & a & Hs & Ha & ->).
  exists a, s. apply resolved_bounded in Hs as [Hc Hlen]. auto.
Qed.

(** X10: when the working directory is [PATH_MAX - 1] bytes long, a
    relative input that [realpath] rejects leaves [fullPath] without
    terminator: the slash takes the place of the terminator of the
    directory and [strlcpy], given no room, writes nothing.  Reading the
    array as a string is then undefined, however short the input. *)
Theorem append_path_unterminated
  (PATH_MAX : nat) (os : host) (path d : string) (p : process) :
  is_c_string d = true ->
  first_char path <> "/"%char ->
  realpath os path = None ->
  cwd os = Some d ->
  String.length d + 1 = PATH_MAX ->
  getcwd os (uninitialised PATH_MAX os) PATH_MAX =
    Some (list_ascii_of_string d ++ [NUL])%list /\
  resolve PATH_MAX os path = Some (list_ascii_of_string d ++ ["/"%char])%list /\
  append_path PATH_MAX os path p = Undefined.
Proof.
  intros Hd Hf Hr Hcwd Hlen.
  assert (Hfit : (String.length d <? PATH_MAX)%nat = true)
    by (apply Nat.ltb_lt; lia).
  assert (Hget : getcwd os (uninitialised PATH_MAX os) PATH_MAX =
                 Some (list_ascii_of_string d ++ [NUL])%list).
  { unfold getcwd. rewrite Hcwd, Hfit, store_at_0.
    rewrite skipn_all2
      by (rewrite length_uninitialised, length_app,
            length_list_ascii_of_string; simpl; lia).
    now rewrite app_nil_r. }
  split; [exact Hget|]. split.
  - unfold resolve. rewrite (realpath_into_none PATH_MAX os path _ Hr).
    apply Ascii.eqb_neq in Hf. rewrite Hf. simpl. rewrite Hget.
    change (list_ascii_of_string d ++ [NUL])%list
      with (list_ascii_of_string d ++ NUL :: [])%list.
    rewrite (strlen_c_str _ _ (c_str_terminated d [] Hd)).
    replace (PATH_MAX - (String.length d + 1)) with 0 by lia.
    unfold strlcpy.
    rewrite <- (length_list_ascii_of_string d) at 1.
    rewrite store_after. reflexivity.
  - apply append_path_unresolved, resolved_undecoded.
    now apply (resolved_unterminated PATH_MAX os path d).
Qed.

(** ** What a run writes and what it hands to the stream *)

Lemma output_printed (text : string) (p : process) :
  output (flushed (emit text p)) = output p ++ text.
Proof.
  unfold output. simpl. now rewrite append_empty_r, append_assoc.
Qed.

Lemma flags_with_requested (f : N) (a : cli_info) :
  flags_with f (c_true (no_defer_flag a)) (c_true (watch_root_flag a))
             (c_true (ignore_self_flag a)) (c_true (file_events_flag a)) =
  N.lor f (requested_flags a).
Proof.
  unfold flags_with, requested_flags, or_if.
  destruct (c_true (no_defer_flag a)), (c_true (watch_root_flag a)),
           (c_true (ignore_self_flag a)), (c_true (file_events_flag a));
    rewrite <- ?N.lor_assoc; simpl; rewrite ?N.lor_0_r; reflexivity.
Qed.

Section Run.

Variable PATH_MAX : nat.
Variable kFSEventWatchOutputFormatClassic : Z.
Variable kFSEventWatchOutputFormatNIW : Z.
Variable cli_parser : list string -> option cli_info.
Variable os : host.

(** What [parse_cli_settings] leaves on the two streams. *)
Lemma parse_cli_settings_says (argv : list string) (p : process) :
  match parse_cli_settings PATH_MAX cli_parser os argv p with
  | Returns _ p' =>
      stderr p' = stderr p /\ stdout p' = stdout p /\ calls p' = calls p /\
      parse_diagnostic cli_parser os argv = EmptyString
  | Exits status p' =>
      status = EXIT_FAILURE /\
      stderr p' = stderr p ++ parse_diagnostic cli_parser os argv /\
      calls p' = calls p
  | Blocked _ => False
  | Undefined => True
  end.
Proof.
  unfold parse_diagnostic.
  destruct (unavailable (detect os gestaltSystemVersionMajor)
                        (detect os gestaltSystemVersionMinor)) eqn:Hu.
  { rewrite parse_cli_settings_refuses by exact Hu. now repeat split. }
  destruct (cli_parser argv) as [a|] eqn:Hcli.
  2:{ rewrite parse_cli_settings_usage by assumption.
      repeat split. simpl. now rewrite append_empty_r. }
  destruct (c_true (ignore_self_flag a)) eqn:Hs,
           (gate (detect os gestaltSystemVersionMajor)
                 (detect os gestaltSystemVersionMinor) 6) eqn:Hg6;
    try (rewrite (parse_cli_settings_no_ignore_self
                    PATH_MAX cli_parser os argv a) by assumption;
         now repeat split);
    (destruct (c_true (file_events_flag a)) eqn:Hf,
              (gate (detect os gestaltSystemVersionMajor)
                    (detect os gestaltSystemVersionMinor) 7) eqn:Hg7;
     try (rewrite (parse_cli_settings_no_file_events
                     PATH_MAX cli_parser os argv a)
            by (auto; intros; congruence);
          now repeat split));
    (rewrite (parse_cli_settings_accepts PATH_MAX cli_parser os argv a)
       by (auto; intros; congruence);
     match goal with
     | |- context [for_each ?f ?l ?q] =>
         destruct (for_each_append_path_outcome PATH_MAX os l q)
           as [->|[p' Hp']]; auto;
         rewrite Hp';
         apply (for_each_append_path_returns PATH_MAX os l []) in Hp'
           as (ps & _ & ->); [|reflexivity];
         now repeat split
     end).
Qed.

(** A batch is printed in the format of [config.format] and flushed. *)
Lemma deliver_prints (batch : list event) (p : process) :
  deliver kFSEventWatchOutputFormatClassic kFSEventWatchOutputFormatNIW
          batch p =
  Returns tt
    (flushed
       (emit (batch_text kFSEventWatchOutputFormatClassic
                         kFSEventWatchOutputFormatNIW
                         (format (config p)) batch) p)).
Proof.
  unfold deliver, batch_text.
  destruct (Z.eq_dec (format (config p)) kFSEventWatchOutputFormatClassic)
    as [Hc|Hc].
  - rewrite callback_classic by exact Hc. rewrite Hc, Z.eqb_refl.
    unfold bind. now rewrite classic_output_format_text.
  - destruct (Z.eq_dec (format (config p)) kFSEventWatchOutputFormatNIW)
      as [Hn|Hn].
    + rewrite callback_niw by assumption.
      apply Z.eqb_neq in Hc. rewrite Hc, Hn, Z.eqb_refl.
      unfold bind. now rewrite niw_output_format_text.
    + rewrite callback_other by assumption.
      apply Z.eqb_neq in Hc, Hn. rewrite Hc, Hn. now rewrite emit_empty.
Qed.

(** Batches delivered one after the other are printed one after the
    other. *)
Lemma for_each_deliver_prints (batches : list (list event)) (p : process) :
  exists p',
    for_each (deliver kFSEventWatchOutputFormatClassic
                      kFSEventWatchOutputFormatNIW) batches p =
    Returns tt p' /\
    calls p' = calls p /\ config p' = config p /\ stderr p' = stderr p /\
    output p' =
    output p ++
    join (map (batch_text kFSEventWatchOutputFormatClassic
                          kFSEventWatchOutputFormatNIW (format (config p)))
              batches).
Proof.
  revert p. induction batches as [|b batches IH]; intros p.
  - exists p. repeat split. simpl. now rewrite append_empty_r.
  - simpl. unfold bind. rewrite deliver_prints.
    destruct (IH (flushed (emit (batch_text kFSEventWatchOutputFormatClassic
                                   kFSEventWatchOutputFormatNIW
                                   (format (config p)) b) p)))
      as (p' & -> & Hk & Hc & He & Ho).
    exists p'. repeat split; auto.
    rewrite Ho, output_printed, append_assoc. reflexivity.
Qed.

(** [main] once [parse_cli_settings] has returned and the stream exists,
    with what it has printed. *)
Lemma main_session (argv : list string) (p p1 : process) :
  (0 <= setpgid os)%Z ->
  parse_cli_settings PATH_MAX cli_parser os argv p = Returns tt p1 ->
  stream_created os = true ->
  let text := batch_text kFSEventWatchOutputFormatClassic
                         kFSEventWatchOutputFormatNIW (format (config p1)) in
  exists p2,
    calls p2 = (calls p1 ++ firstn 4 (session (config p1)))%list /\
    stderr p2 = stderr p1 /\
    output p2 = output p1 ++ join (map text (delivered os)) /\
    (run_loop_returns os = false ->
     main PATH_MAX kFSEventWatchOutputFormatClassic
          kFSEventWatchOutputFormatNIW cli_parser os argv p = Blocked p2) /\
    (run_loop_returns os = true ->
     exists p3,
       main PATH_MAX kFSEventWatchOutputFormatClassic
            kFSEventWatchOutputFormatNIW cli_parser os argv p = Exits 0 p3 /\
       calls p3 = (calls p1 ++ session (config p1))%list /\
       stderr p3 = stderr p1 /\
       stdout p3 =
       mk_FILE EmptyString
               (output p1 ++ join (map text (delivered os ++ pending os)))).
Proof.
  intros Hpg Hparse Hstream text. apply Z.ltb_ge in Hpg.
  remember (main PATH_MAX kFSEventWatchOutputFormatClassic
                 kFSEventWatchOutputFormatNIW cli_parser os argv p)
    as m eqn:Hm.
  unfold main in Hm. rewrite Hpg, Hstream in Hm.
  unfold bind in Hm. rewrite Hparse in Hm.
  unfold get_config, on_stream, native, modify, ret, exit in Hm.
  match type of Hm with
  | context [for_each ?f ?l ?q] =>
      destruct (for_each_deliver_prints l q)
        as (p2 & Hp2 & Hk & Hc & He & Ho);
      rewrite Hp2 in Hm
  end.
  exists p2. simpl in Hk, Hc, He.
  change (output p2 = output p1 ++ join (map text (delivered os))) in Ho.
  split; [rewrite Hk, <- !app_assoc; reflexivity|].
  split; [exact He|]. split; [exact Ho|].
  split; intros Hrun; rewrite Hrun in Hm.
  - exact Hm.
  - match type of Hm with
    | context [for_each ?f ?l ?q] =>
        destruct (for_each_deliver_prints l q)
          as (p3 & Hp3 & Hk3 & Hc3 & He3 & Ho3);
        rewrite Hp3 in Hm
    end.
    eexists. split; [exact Hm|]. simpl in *.
    rewrite Hk3, Hk, He3, He, <- !app_assoc.
    repeat split. unfold flush. f_equal.
    change (output p3 = output p1 ++
                        join (map text (delivered os ++ pending os))).
    rewrite Ho3, Hc.
    change (output (called FSEventStreamFlushSync p2)) with (output p2).
    rewrite Ho, map_app, join_app, append_assoc. reflexivity.
Qed.

End Run.

(** ** Further properties of the command line and of a run *)

(** X11: [main] writes one diagnostic to [stderr] at most, that of the
    first check that fails in the order process group, version, command
    line, [--ignore-self], [--file-events]; it ends with status 0 or 1;
    with status 0, or inside the run loop, it has written no diagnostic;
    with status 1 it has made no native call. *)
Theorem main_diagnostic_and_status
  (PATH_MAX : nat)
  (kFSEventWatchOutputFormatClassic kFSEventWatchOutputFormatNIW : Z)
  (cli_parser : list string -> option cli_info) (os : host)
  (argv : list string) (p : process) :
  match main PATH_MAX kFSEventWatchOutputFormatClassic
             kFSEventWatchOutputFormatNIW cli_parser os argv p with
  | Returns _ _ => False
  | Exits status p' =>
      stderr p' = stderr p ++ main_diagnostic cli_parser os argv /\
      (status = 0%Z \/ status = 1%Z) /\
      (status = 0%Z -> main_diagnostic cli_parser os argv = EmptyString) /\
      (status = 1%Z -> calls p' = calls p)
  | Blocked p' =>
      stderr p' = stderr p /\
      main_diagnostic cli_parser os argv = EmptyString
  | Undefined => True
  end.
Proof.
  unfold main_diagnostic.
  destruct (setpgid os <? 0)%Z eqn:Hpg.
  { unfold main. rewrite Hpg. simpl.
    repeat split; auto. discriminate. }
  pose proof (parse_cli_settings_says PATH_MAX cli_parser os argv p) as Hsays.
  destruct (parse_cli_settings PATH_MAX cli_parser os argv p)
    as [[] p1|status p1|p1|] eqn:Hparse.
  - destruct Hsays as (He & _ & Hk & Hd). rewrite Hd.
    destruct (stream_created os) eqn:Hstream.
    + apply Z.ltb_ge in Hpg.
      destruct (main_session PATH_MAX kFSEventWatchOutputFormatClassic
                  kFSEventWatchOutputFormatNIW cli_parser os argv p p1
                  Hpg Hparse Hstream)
        as (p2 & _ & He2 & _ & Hblocked & Hexits).
      destruct (run_loop_returns os).
      * destruct (Hexits eq_refl) as (p3 & -> & _ & He3 & _).
        rewrite append_empty_r. repeat split; auto; try congruence.
      * rewrite (Hblocked eq_refl). split; congruence.
    + unfold main. rewrite Hpg, Hstream.
      unfold bind at 1. rewrite Hparse. exact I.
  - destruct Hsays as (-> & He & Hk).
    unfold main. rewrite Hpg. unfold bind at 1. rewrite Hparse.
    repeat split; auto. discriminate.
  - destruct Hsays.
  - unfold main. rewrite Hpg. unfold bind at 1. now rewrite Hparse.
Qed.

(** X12: when [parse_cli_settings] returns, [config] holds the starting
    event id, the latency and the format of the command line, and its
    flags are those it had with the bits of the requested flags added:
    [0x02] for [--no-defer], [0x04] for [--watch-root], [0x08] for
    [--ignore-self], [0x10] for [--file-events], and no other. *)
Theorem parsed_configuration
  (PATH_MAX : nat) (cli_parser : list string -> option cli_info) (os : host)
  (argv : list string) (p p' : process) :
  parse_cli_settings PATH_MAX cli_parser os argv p = Returns tt p' ->
  exists a,
    cli_parser argv = Some a /\
    sinceWhen (config p') = since_when_arg a /\
    latency (config p') = latency_arg a /\
    format (config p') = format_arg a /\
    flags (config p') = N.lor (flags (config p)) (requested_flags a) /\
    (flags (config p) = kFSEventStreamCreateFlagNone ->
     flags (config p') = requested_flags a) /\
    stdout p' = stdout p /\ stderr p' = stderr p.
Proof.
  intros H.
  apply parse_cli_settings_returns in H
    as (a & ps & Hcli & _ & _ & _ & _ & ->).
  exists a. simpl. rewrite flags_with_requested.
  repeat split; auto. intros ->. apply N.lor_0_l.
Qed.

(** X13: the stream is created once, first of all native calls, on the
    resolved inputs of the command line in their order (the resolution of
    ["."] when there is none), with the starting event id and the latency
    of the command line and with the requested flags. *)
Theorem stream_created_from_command_line
  (PATH_MAX : nat)
  (kFSEventWatchOutputFormatClassic kFSEventWatchOutputFormatNIW : Z)
  (cli_parser : list string -> option cli_info) (os : host)
  (argv : list string) (p p1 : process) :
  calls p = [] ->
  (0 <= setpgid os)%Z ->
  parse_cli_settings PATH_MAX cli_parser os argv p = Returns tt p1 ->
  stream_created os = true ->
  exists a ps p',
    cli_parser argv = Some a /\
    Forall2 (fun input s => resolved PATH_MAX os input = Some s)
            (match inputs a with [] => ["."] | l => l end) ps /\
    (main PATH_MAX kFSEventWatchOutputFormatClassic
          kFSEventWatchOutputFormatNIW cli_parser os argv p = Blocked p' \/
     main PATH_MAX kFSEventWatchOutputFormatClassic
          kFSEventWatchOutputFormatNIW cli_parser os argv p = Exits 0 p') /\
    exists rest,
      calls p' =
      FSEventStreamCreate (Some ps) (since_when_arg a) (latency_arg a)
        (N.lor (flags (config p)) (requested_flags a)) :: rest /\
      forall pw s l f, ~ In (FSEventStreamCreate pw s l f) rest.
Proof.
  intros Hk Hpg Hparse Hstream.
  destruct (main_session PATH_MAX kFSEventWatchOutputFormatClassic
              kFSEventWatchOutputFormatNIW cli_parser os argv p p1
              Hpg Hparse Hstream)
    as (p2 & Hk2 & _ & _ & Hblocked & Hexits).
  pose proof (parse_cli_settings_says PATH_MAX cli_parser os argv p) as Hsays.
  rewrite Hparse in Hsays. destruct Hsays as (_ & _ & Hk1 & _).
  rewrite Hk in Hk1.
  apply parse_cli_settings_returns in Hparse
    as (a & ps & Hcli & _ & _ & _ & Hps & ->).
  exists a, ps. simpl in *. rewrite flags_with_requested in *.
  destruct (run_loop_returns os).
  - destruct (Hexits eq_refl) as (p3 & Hmain & Hk3 & _).
    exists p3. repeat split; auto.
    rewrite Hk in Hk3. simpl in Hk3.
    eexists. split; [exact Hk3|].
    intros pw s l f Hin. simpl in Hin.
    repeat (destruct Hin as [Hin|Hin]; [discriminate|]). exact Hin.
  - exists p2. repeat split; auto.
    rewrite Hk in Hk2. simpl in Hk2.
    eexists. split; [exact Hk2|].
    intros pw s l f Hin. simpl in Hin.
    repeat (destruct Hin as [Hin|Hin]; [discriminate|]). exact Hin.
Qed.

(** X14: standard output receives the delivered batches, each printed in
    the format of the command line, in the order of their delivery, and
    nothing else: when [main] returns 0 all of it has been flushed, the
    batches of the run loop followed by those of the final flush; inside a
    run loop that never returns, it is the batches delivered so far. *)
Theorem stdout_is_the_batches
  (PATH_MAX : nat)
  (kFSEventWatchOutputFormatClassic kFSEventWatchOutputFormatNIW : Z)
  (cli_parser : list string -> option cli_info) (os : host)
  (argv : list string) (p p1 : process) :
  (0 <= setpgid os)%Z ->
  parse_cli_settings PATH_MAX cli_parser os argv p = Returns tt p1 ->
  stream_created os = true ->
  let text := batch_text kFSEventWatchOutputFormatClassic
                         kFSEventWatchOutputFormatNIW (format (config p1)) in
  exists p',
    (if run_loop_returns os
     then main PATH_MAX kFSEventWatchOutputFormatClassic
               kFSEventWatchOutputFormatNIW cli_parser os argv p = Exits 0 p'
          /\ stdout p' =
             mk_FILE EmptyString
                     (output p ++ join (map text (delivered os ++ pending os)))
     else main PATH_MAX kFSEventWatchOutputFormatClassic
               kFSEventWatchOutputFormatNIW cli_parser os argv p = Blocked p'
          /\ output p' = output p ++ join (map text (delivered os))).
Proof.
  intros Hpg Hparse Hstream text.
  destruct (main_session PATH_MAX kFSEventWatchOutputFormatClassic
              kFSEventWatchOutputFormatNIW cli_parser os argv p p1
              Hpg Hparse Hstream)
    as (p2 & _ & _ & Ho2 & Hblocked & Hexits).
  pose proof (parse_cli_settings_says PATH_MAX cli_parser os argv p) as Hsays.
  rewrite Hparse in Hsays. destruct Hsays as (_ & Ho1 & _ & _).
  assert (Hout : output p1 = output p) by (unfold output; now rewrite Ho1).
  rewrite Hout in *.
  destruct (run_loop_returns os).
  - destruct (Hexits eq_refl) as (p3 & Hmain & _ & _ & Ho3).
    exists p3. split; auto.
  - exists p2. split; auto.
Qed.

(** X15: a command line without input is treated as the same command line
    with the one input ["."]. *)
Theorem no_input_is_dot
  (PATH_MAX : nat) (cli_parser cli_parser' : list string -> option cli_info)
  (os : host) (argv argv' : list string) (a : cli_info) (p : process) :
  cli_parser argv = Some a ->
  inputs a = [] ->
  cli_parser' argv' = Some (with_inputs ["."] a) ->
  parse_cli_settings PATH_MAX cli_parser os argv p =
  parse_cli_settings PATH_MAX cli_parser' os argv' p.
Proof.
  intros Hcli Hin Hcli'.
  set (a' := with_inputs ["."] a) in *.
  destruct (unavailable (detect os gestaltSystemVersionMajor)
                        (detect os gestaltSystemVersionMinor)) eqn:Hu.
  { now rewrite !parse_cli_settings_refuses. }
  destruct (c_true (ignore_self_flag a)) eqn:Hs,
           (gate (detect os gestaltSystemVersionMajor)
                 (detect os gestaltSystemVersionMinor) 6) eqn:Hg6;
    try (rewrite (parse_cli_settings_no_ignore_self
                    PATH_MAX cli_parser os argv a) by assumption;
         rewrite (parse_cli_settings_no_ignore_self
                    PATH_MAX cli_parser' os argv' a') by assumption;
         reflexivity);
    (destruct (c_true (file_events_flag a)) eqn:Hf,
              (gate (detect os gestaltSystemVersionMajor)
                    (detect os gestaltSystemVersionMinor) 7) eqn:Hg7;
     try (rewrite (parse_cli_settings_no_file_events
                     PATH_MAX cli_parser os argv a)
            by (auto; intros; congruence);
          rewrite (parse_cli_settings_no_file_events
                     PATH_MAX cli_parser' os argv' a')
            by (auto; simpl; intros; congruence);
          simpl; rewrite ?Hs; reflexivity));
    (rewrite (parse_cli_settings_accepts PATH_MAX cli_parser os argv a)
       by (auto; intros; congruence);
     rewrite (parse_cli_settings_accepts PATH_MAX cli_parser' os argv' a')
       by (auto; simpl; intros; congruence);
     unfold watched_inputs; rewrite Hin; simpl; rewrite ?Hs, ?Hf;
     reflexivity).
Qed.

(** X9: on a host whose [realpath] and [getcwd] answer absolute paths,
    every path [parse_cli_settings] configures is absolute, and a C string
    of fewer than [PATH_MAX] bytes, whatever the inputs of the command
    line. *)
Theorem configured_paths_absolute
  (PATH_MAX : nat) (cli_parser : list string -> option cli_info) (os : host)
  (argv : list string) (p p' : process) :
  (forall q r, realpath os q = Some r ->
               is_c_string r = true /\ first_char r = "/"%char) ->
  (forall d, cwd os = Some d ->
             is_c_string d = true /\ first_char d = "/"%char) ->
  2 <= PATH_MAX ->
  (forall a, cli_parser argv = Some a ->
             Forall (fun input => is_c_string input = true) (inputs a)) ->
  parse_cli_settings PATH_MAX cli_parser os argv p = Returns tt p' ->
  exists ps,
    paths (config p') = Some ps /\
    Forall (fun s => first_char s = "/"%char /\ is_c_string s = true /\
                     String.length s < PATH_MAX) ps.
Proof.
  intros Hreal Hcwd Hmax Hin H.
  apply parse_cli_settings_returns in H
    as (a & ps & Hcli & _ & _ & _ & Hps & ->).
  exists ps. split; [reflexivity|].
  assert (Hw : Forall (fun input => is_c_string input = true)
                      (watched_inputs a)).
  { specialize (Hin a Hcli). unfold watched_inputs.
    destruct (inputs a); auto. }
  clear Hin Hcli. induction Hps as [|x s l ps Hx _ IH]; constructor.
  - inversion Hw; subst.
    destruct (resolved_bounded PATH_MAX os x s Hx) as [Hc Hlen].
    repeat split; auto.
    now apply (resolved_is_absolute PATH_MAX os x s).
  - apply IH. now inversion Hw.
Qed.

Section Reader.

Variable kFSEventWatchOutputFormatClassic : Z.
Variable kFSEventWatchOutputFormatNIW : Z.

(** Two batches printed alike from the same state have the same text. *)
Lemma deliver_same_text (batch1 batch2 : list event) (p : process) :
  deliver kFSEventWatchOutputFormatClassic kFSEventWatchOutputFormatNIW
          batch1 p =
  deliver kFSEventWatchOutputFormatClassic kFSEventWatchOutputFormatNIW
          batch2 p ->
  batch_text kFSEventWatchOutputFormatClassic kFSEventWatchOutputFormatNIW
             (format (config p)) batch1 =
  batch_text kFSEventWatchOutputFormatClassic kFSEventWatchOutputFormatNIW
             (format (config p)) batch2.
Proof.
  rewrite !deliver_prints. intros H.
  apply (f_equal (fun o => match o with
                           | Returns _ q => written (stdout q)
                           | _ => EmptyString
                           end)) in H.
  simpl in H. apply append_inv_head in H. now apply append_inv_head in H.
Qed.

End Reader.

(** X4: in the annotated format the output of the callback determines the
    batch, paths, flags and ids: two batches that the callback prints alike
    are the same batch, as long as no path holds a line feed. *)
Theorem annotated_output_determines_batch
  (kFSEventWatchOutputFormatClassic kFSEventWatchOutputFormatNIW : Z)
  (batch1 batch2 : list event) (p : process) :
  kFSEventWatchOutputFormatClassic <> kFSEventWatchOutputFormatNIW ->
  format (config p) = kFSEventWatchOutputFormatNIW ->
  (forall e, In e batch1 -> occurs "010"%char (ev_path e) = false) ->
  (forall e, In e batch2 -> occurs "010"%char (ev_path e) = false) ->
  deliver kFSEventWatchOutputFormatClassic kFSEventWatchOutputFormatNIW
          batch1 p =
  deliver kFSEventWatchOutputFormatClassic kFSEventWatchOutputFormatNIW
          batch2 p ->
  batch1 = batch2.
Proof.
  intros Hd Hf H1 H2 H. apply deliver_same_text in H.
  unfold batch_text in H. rewrite Hf, Z.eqb_refl in H.
  assert (Hn : (kFSEventWatchOutputFormatNIW =?
                kFSEventWatchOutputFormatClassic)%Z = false)
    by (apply Z.eqb_neq; congruence).
  rewrite Hn in H. now apply annotated_text_determines.
Qed.

(** X5: in the classic format the output of the callback determines the
    paths of the batch, in order, as long as no path holds a colon. *)
Theorem classic_output_determines_paths
  (kFSEventWatchOutputFormatClassic kFSEventWatchOutputFormatNIW : Z)
  (batch1 batch2 : list event) (p : process) :
  format (config p) = kFSEventWatchOutputFormatClassic ->
  (forall e, In e batch1 -> occurs ":"%char (ev_path e) = false) ->
  (forall e, In e batch2 -> occurs ":"%char (ev_path e) = false) ->
  deliver kFSEventWatchOutputFormatClassic kFSEventWatchOutputFormatNIW
          batch1 p =
  deliver kFSEventWatchOutputFormatClassic kFSEventWatchOutputFormatNIW
          batch2 p ->
  map ev_path batch1 = map ev_path batch2.
Proof.
  intros Hf H1 H2 H. apply deliver_same_text in H.
  unfold batch_text in H. rewrite Hf, Z.eqb_refl in H.
  now apply classic_text_determines.
Qed.

(** X6: the classic format does not protect the colons of a path: a record
    whose path is [p:q] is printed as the two records of paths [p] and [q]
    are, wherever it stands in the batch and whatever the flags and the
    ids. *)
Theorem classic_output_colon_collision
  (kFSEventWatchOutputFormatClassic kFSEventWatchOutputFormatNIW : Z)
  (before after : list event) (path1 path2 : string)
  (f f1 f2 i i1 i2 : N) (p : process) :
  format (config p) = kFSEventWatchOutputFormatClassic ->
  deliver kFSEventWatchOutputFormatClassic kFSEventWatchOutputFormatNIW
          (before ++ mk_event (path1 ++ ":" ++ path2) f i :: after)%list p =
  deliver kFSEventWatchOutputFormatClassic kFSEventWatchOutputFormatNIW
          (before ++ mk_event path1 f1 i1 :: mk_event path2 f2 i2 :: after)%list
          p.
Proof.
  intros Hf. rewrite !deliver_prints. unfold batch_text.
  rewrite Hf, Z.eqb_refl.
  now rewrite (classic_text_collision before after path1 path2 f f1 f2 i i1 i2).
Qed.

(** ** Instances of the further properties *)

Lemma annotated_output_determines_batch_witness :
  [mk_event "/tmp/a" 0 1; mk_event "/tmp/b" 0 2] = batch_ab.
Proof.
  apply (annotated_output_determines_batch
           classic_value niw_value
           [mk_event "/tmp/a" 0 1; mk_event "/tmp/b" 0 2] batch_ab
           (formatting niw_value)).
  - discriminate.
  - reflexivity.
  - intros e [<-|[<-|[]]]; reflexivity.
  - intros e [<-|[<-|[]]]; reflexivity.
  - reflexivity.
Defined.

Lemma classic_output_determines_paths_witness :
  map ev_path [mk_event "/tmp/a" 4 7; mk_event "/tmp/b" 5 8] =
  map ev_path batch_ab.
Proof.
  apply (classic_output_determines_paths
           classic_value niw_value
           [mk_event "/tmp/a" 4 7; mk_event "/tmp/b" 5 8] batch_ab
           (formatting classic_value)).
  - reflexivity.
  - intros e [<-|[<-|[]]]; reflexivity.
  - intros e [<-|[<-|[]]]; reflexivity.
  - reflexivity.
Defined.

Lemma classic_output_colon_collision_witness :
  deliver classic_value niw_value [mk_event "/tmp/a:/tmp/b" 0 1]
          (formatting classic_value) =
  deliver classic_value niw_value batch_ab (formatting classic_value).
Proof.
  apply (classic_output_colon_collision
           classic_value niw_value [] [] "/tmp/a" "/tmp/b" 0 0 0 1 1 2
           (formatting classic_value)).
  reflexivity.
Defined.

Lemma append_path_existing_witness :
  append_path darwin_PATH_MAX lion "." ready =
    Returns tt (set_config (set_paths (Some ["/home/me"])) ready) /\
  forall d,
    append_path darwin_PATH_MAX
      (mk_host (setpgid lion) (Gestalt lion) (realpath lion) d
               (indeterminate lion) (decodes lion) (stream_created lion)
               (delivered lion) (run_loop_returns lion) (pending lion))
      "." ready =
    append_path darwin_PATH_MAX lion "." ready.
Proof.
  apply (append_path_existing darwin_PATH_MAX lion "." "/home/me" [] ready);
    try reflexivity.
  apply Nat.ltb_lt. reflexivity.
Defined.

Lemma append_path_appends_one_bounded_path_witness :
  exists a s,
    paths (config ready) = Some a /\
    set_config (set_paths (Some ["/home/me/new/file"])) ready =
      set_config (set_paths (Some (a ++ [s])%list)) ready /\
    is_c_string s = true /\
    String.length s < darwin_PATH_MAX.
Proof.
  apply (append_path_appends_one_bounded_path
           darwin_PATH_MAX lion "new/file" ready
           (set_config (set_paths (Some ["/home/me/new/file"])) ready)).
  reflexivity.
Defined.

Lemma configured_paths_absolute_witness :
  exists ps,
    paths (config (set_config (set_paths (Some ["/tmp"; "/home/me/src"]))
                              (formatting classic_value))) = Some ps /\
    Forall (fun s => first_char s = "/"%char /\ is_c_string s = true /\
                     String.length s < darwin_PATH_MAX) ps.
Proof.
  apply (configured_paths_absolute
           darwin_PATH_MAX (parsed (arguments classic_value 0 0 ["/tmp"; "src"]))
           lion [] (process_start classic_value)).
  - intros q r. simpl. destruct (String.eqb q "."); [|discriminate].
    intros [= <-]. split; reflexivity.
  - intros d. simpl. intros [= <-]. split; reflexivity.
  - apply Nat.leb_le. reflexivity.
  - intros a [= <-]. repeat constructor.
  - reflexivity.
Defined.

Lemma append_path_unterminated_witness :
  getcwd lion (uninitialised 9 lion) 9 =
    Some (list_ascii_of_string "/home/me" ++ [NUL])%list /\
  resolve 9 lion "x" = Some (list_ascii_of_string "/home/me" ++ ["/"%char])%list /\
  append_path 9 lion "x" ready = Undefined.
Proof.
  apply (append_path_unterminated 9 lion "x" "/home/me" ready);
    try reflexivity.
  discriminate.
Defined.

Lemma parsed_configuration_witness :
  exists a,
    parsed (arguments niw_value 1 1 ["/tmp"]) [] = Some a /\
    sinceWhen (config (set_config (set_paths (Some ["/tmp"]))
                         (set_config (configure (arguments niw_value 1 1 ["/tmp"]) 24)
                                     (process_start classic_value)))) =
      since_when_arg a /\
    latency (config (set_config (set_paths (Some ["/tmp"]))
                       (set_config (configure (arguments niw_value 1 1 ["/tmp"]) 24)
                                   (process_start classic_value)))) =
      latency_arg a /\
    format (config (set_config (set_paths (Some ["/tmp"]))
                      (set_config (configure (arguments niw_value 1 1 ["/tmp"]) 24)
                                  (process_start classic_value)))) =
      format_arg a /\
    flags (config (set_config (set_paths (Some ["/tmp"]))
                     (set_config (configure (arguments niw_value 1 1 ["/tmp"]) 24)
                                 (process_start classic_value)))) =
      N.lor (flags (config (process_start classic_value)))
            (requested_flags a) /\
    (flags (config (process_start classic_value)) =
       kFSEventStreamCreateFlagNone ->
     flags (config (set_config (set_paths (Some ["/tmp"]))
                      (set_config (configure (arguments niw_value 1 1 ["/tmp"]) 24)
                                  (process_start classic_value)))) =
       requested_flags a) /\
    stdout (set_config (set_paths (Some ["/tmp"]))
              (set_config (configure (arguments niw_value 1 1 ["/tmp"]) 24)
                          (process_start classic_value))) =
      stdout (process_start classic_value) /\
    stderr (set_config (set_paths (Some ["/tmp"]))
              (set_config (configure (arguments niw_value 1 1 ["/tmp"]) 24)
                          (process_start classic_value))) =
      stderr (process_start classic_value).
Proof.
  apply (parsed_configuration
           darwin_PATH_MAX (parsed (arguments niw_value 1 1 ["/tmp"])) lion []
           (process_start classic_value)).
  reflexivity.
Defined.

Lemma stream_created_from_command_line_witness :
  exists a ps p',
    parsed (arguments classic_value 1 0 ["/tmp"; "src"]) [] = Some a /\
    Forall2 (fun input s => resolved darwin_PATH_MAX lion input = Some s)
            (match inputs a with [] => ["."] | l => l end) ps /\
    (main darwin_PATH_MAX classic_value niw_value
          (parsed (arguments classic_value 1 0 ["/tmp"; "src"])) lion []
          (process_start classic_value) = Blocked p' \/
     main darwin_PATH_MAX classic_value niw_value
          (parsed (arguments classic_value 1 0 ["/tmp"; "src"])) lion []
          (process_start classic_value) = Exits 0 p') /\
    exists rest,
      calls p' =
      FSEventStreamCreate (Some ps) (since_when_arg a) (latency_arg a)
        (N.lor (flags (config (process_start classic_value)))
               (requested_flags a)) :: rest /\
      forall pw s l f, ~ In (FSEventStreamCreate pw s l f) rest.
Proof.
  apply (stream_created_from_command_line
           darwin_PATH_MAX classic_value niw_value
           (parsed (arguments classic_value 1 0 ["/tmp"; "src"])) lion []
           (process_start classic_value)
           (mk_process
              (mk_config kFSEventStreamEventIdSinceNow (3 # 10) 8
                         (Some ["/tmp"; "/home/me/src"]) classic_value)
              (mk_FILE EmptyString EmptyString) EmptyString []));
    [reflexivity|discriminate|reflexivity|reflexivity].
Defined.

Lemma stdout_is_the_batches_witness :
  exists p',
    main darwin_PATH_MAX classic_value niw_value
         (parsed (arguments niw_value 0 0 [])) lion []
         (process_start classic_value) = Exits 0 p' /\
    stdout p' =
    mk_FILE EmptyString
            (output (process_start classic_value) ++
             join (map (batch_text classic_value niw_value niw_value)
                       ([batch_ab] ++ [])%list)).
Proof.
  apply (stdout_is_the_batches
           darwin_PATH_MAX classic_value niw_value
           (parsed (arguments niw_value 0 0 [])) lion []
           (process_start classic_value)
           (mk_process
              (mk_config kFSEventStreamEventIdSinceNow (3 # 10) 0
                         (Some ["/home/me"]) niw_value)
              (mk_FILE EmptyString EmptyString) EmptyString []));
    [discriminate|reflexivity|reflexivity].
Defined.

Lemma no_input_is_dot_witness :
  parse_cli_settings darwin_PATH_MAX
    (parsed (arguments classic_value 0 0 [])) lion []
    (process_start classic_value) =
  parse_cli_settings darwin_PATH_MAX
    (parsed (arguments classic_value 0 0 ["."])) lion ["."]
    (process_start classic_value).
Proof.
  apply (no_input_is_dot
           darwin_PATH_MAX (parsed (arguments classic_value 0 0 []))
           (parsed (arguments classic_value 0 0 ["."])) lion [] ["."]
           (arguments classic_value 0 0 []) (process_start classic_value));
    reflexivity.
Defined.
